(** * Goforgold2: a recon pipeline with a shared result store and a TUI

    A shallow embedding of the Go sources (backend/main.go, the [parsers],
    [scanners] and [utils] packages) and the properties of the shared
    [ScanResult] that the specification states about them. *)

From Stdlib Require Import ZArith Ascii String DecimalString.
From stdpp Require Import base tactics option list gmap strings.

Local Open Scope string_scope.
Local Open Scope list_scope.

(** ** Go strings

    A Go string is a sequence of bytes; [string] with one [ascii] per byte. *)

Module GoStrings.

(** [strings.HasPrefix]. *)
Fixpoint HasPrefix (s p : string) {struct p} : bool :=
  match p with
  | EmptyString => true
  | String c p' =>
      match s with
      | EmptyString => false
      | String d s' => if Ascii.eqb c d then HasPrefix s' p' else false
      end
  end.

(** [strings.Contains]: does [sub] occur somewhere in [s]? *)
Fixpoint Contains (s sub : string) : bool :=
  HasPrefix s sub ||
  match s with
  | EmptyString => false
  | String _ s' => Contains s' sub
  end.

(** The rest of [s] after its first [n] bytes. *)
Fixpoint skip (n : nat) (s : string) : string :=
  match n, s with
  | O, _ => s
  | S n', String _ s' => skip n' s'
  | S _, EmptyString => EmptyString
  end.

Definition newline : ascii := "010"%char.
Definition carriage_return : ascii := "013"%char.

(** [strings.Split(s, "\n")]: every segment between separators, the last one
    included even when it is empty; [Split("", "\n")] is one empty string. *)
Fixpoint Split_rev (cur : string) (s : string) : list string :=
  match s with
  | EmptyString => [String.rev cur]
  | String c s' =>
      if Ascii.eqb c newline then String.rev cur :: Split_rev EmptyString s'
      else Split_rev (String c cur) s'
  end.

Definition Split_newline (s : string) : list string := Split_rev EmptyString s.

(** [fmt]'s [%d] and [%v] for integers and booleans, [%v] for [[]int]. *)
Definition fmt_int (z : Z) : string := NilZero.string_of_int (Z.to_int z).

Definition fmt_bool (b : bool) : string := if b then "true" else "false".

Fixpoint fmt_ints_body (l : list Z) : string :=
  match l with
  | [] => ""
  | [z] => fmt_int z
  | z :: l' => fmt_int z +:+ " " +:+ fmt_ints_body l'
  end.

Definition fmt_ints (l : list Z) : string := "[" +:+ fmt_ints_body l +:+ "]".

End GoStrings.
Import GoStrings.

(** ** [bufio.Scanner] with the default [ScanLines] split function *)

Module Bufio.

(** A token longer than the scanner's buffer ends the scan with
    [ErrTooLong]; none of the callers looks at [scanner.Err()]. *)
Definition MaxScanTokenSize : nat := 64 * 1024.

(** [dropCR]: one trailing carriage return is removed from a line. *)
Definition dropCR (line_rev : string) : string :=
  match line_rev with
  | String c rest => if Ascii.eqb c carriage_return then String.rev rest
                     else String.rev line_rev
  | EmptyString => EmptyString
  end.

(** The lines [scanner.Scan()] delivers, in order.  [cur] is the current
    line so far (reversed) and [n] its length.  A line that reaches the
    buffer size before its newline stops the scan; a last line without a
    newline is delivered when it is not empty. *)
Fixpoint scan (cur : string) (n : nat) (s : string) : list string :=
  match s with
  | EmptyString =>
      match cur with
      | EmptyString => []
      | _ => if Nat.ltb n MaxScanTokenSize then [dropCR cur] else []
      end
  | String c s' =>
      if Ascii.eqb c newline then
        if Nat.ltb n MaxScanTokenSize
        then dropCR cur :: scan EmptyString 0 s'
        else []
      else scan (String c cur) (S n) s'
  end.

Definition ScanLines (input : string) : list string := scan EmptyString 0 input.

End Bufio.

(** ** The regular expressions of the parsers

    Only the operators the source's patterns use: literals, an optional
    item, a repeated byte class and concatenation.  [run r s] lists the ways
    [r] matches a prefix of [s] as (matched text, rest), in the order a
    backtracking matcher prefers them (greedy operators try the longest
    first), which is the order of Go's leftmost-first semantics. *)

Module Regexp.

Inductive regex : Type :=
| Lit (l : string)
| Opt (r : regex)
| PlusClass (p : ascii -> bool)
| Cat (r1 r2 : regex).

Fixpoint run_class (p : ascii -> bool) (s : string) : list (string * string) :=
  match s with
  | EmptyString => []
  | String c s' =>
      if p c then
        map (fun mr => (String c (fst mr), snd mr)) (run_class p s')
          ++ [(String c EmptyString, s')]
      else []
  end.

Fixpoint run (r : regex) (s : string) : list (string * string) :=
  match r with
  | Lit l => if HasPrefix s l then [(l, skip (String.length l) s)] else []
  | Opt r' => run r' s ++ [(EmptyString, s)]
  | PlusClass p => run_class p s
  | Cat r1 r2 =>
      flat_map (fun mr1 =>
                  map (fun mr2 => (fst mr1 +:+ fst mr2, snd mr2))
                      (run r2 (snd mr1)))
               (run r1 s)
  end.

(** The leftmost match of [r] in [s]. *)
Fixpoint find (r : regex) (s : string) : option string :=
  match run r s with
  | (m, _) :: _ => Some m
  | [] =>
      match s with
      | EmptyString => None
      | String _ s' => find r s'
      end
  end.

(** [re.FindStringSubmatch] for a pattern that is one capture group around
    [r]: the whole match and the group's text, or nil when nothing matches. *)
Definition FindStringSubmatch (r : regex) (s : string) : list string :=
  match find r s with
  | Some m => [m; m]
  | None => []
  end.

(** The class [\s] of RE2: tab, newline, form feed, carriage return, space. *)
Definition is_space (c : ascii) : bool :=
  match nat_of_ascii c with
  | 9 | 10 | 12 | 13 | 32 => true
  | _ => false
  end.

(** The language of a pattern, independent of any matching strategy. *)
Inductive matches : regex -> string -> Prop :=
| matches_Lit l : matches (Lit l) l
| matches_Opt_none r : matches (Opt r) EmptyString
| matches_Opt_some r s : matches r s -> matches (Opt r) s
| matches_PlusClass_one p c : p c = true -> matches (PlusClass p) (String c EmptyString)
| matches_PlusClass_more p c s :
    p c = true -> matches (PlusClass p) s -> matches (PlusClass p) (String c s)
| matches_Cat r1 r2 s1 s2 :
    matches r1 s1 -> matches r2 s2 -> matches (Cat r1 r2) (s1 +:+ s2).

End Regexp.
Import Regexp.

(** ** Data structures (backend/main.go) *)

Record SubdomainResult := {
  Hostname : string;
  IP : string;
  Ports : list Z
}.

Record VulnerabilityResult := {
  URL : string;
  Issue : string;
  Detail : string
}.

Record FfufResult := {
  Path : string;
  Status : Z;
  Size : Z
}.

Record ScanResult := {
  Subdomains : list SubdomainResult;
  VulnURLs : list VulnerabilityResult;
  FfufEntries : list FfufResult;
  AllURLs : list string;
  LogLines : list string;
  FinalReport : string;
  Running : bool;
  ProxyEnabled : bool
}.

(** ** Parsers *)

(** [(http[s]?://[^\s]+)] *)
Definition url_pattern : regex :=
  Cat (Lit "http") (Cat (Opt (Lit "s")) (Cat (Lit "://") (PlusClass (fun c => negb (is_space c))))).

(** The body of the parsers' loop: the marker test, the pattern, and the
    append of one record. *)
Definition parse_line (marker issue : string)
    (results : list VulnerabilityResult) (line : string) : list VulnerabilityResult :=
  if Contains line marker then
    let match_ := FindStringSubmatch url_pattern line in
    if Nat.ltb 1 (length match_) then
      results ++ [{| URL := nth 1 match_ ""; Issue := issue; Detail := line |}]
    else results
  else results.

(** [ParseSqlmapOutput] extracts SQLi findings from sqlmap output. *)
Definition ParseSqlmapOutput (output : string) : list VulnerabilityResult :=
  fold_left (parse_line "is vulnerable" "SQL Injection") (Bufio.ScanLines output) [].

(** [ParseDalfoxOutput] extracts XSS findings from dalfox output. *)
Definition ParseDalfoxOutput (output : string) : list VulnerabilityResult :=
  fold_left (parse_line "[POC]" "XSS") (Bufio.ScanLines output) [].

(** [uniqueStrings] returns unique elements from a slice: the first
    occurrence of each string, in order.  [seen] is the Go map
    [map[string]bool]; an absent key reads as [false]. *)
Definition uniqueStrings_step (st : gmap string bool * list string) (s : string)
    : gmap string bool * list string :=
  let '(seen, res) := st in
  if negb (default false (seen !! s)) then (<[s := true]> seen, res ++ [s])
  else (seen, res).

Definition uniqueStrings (input : list string) : list string :=
  snd (fold_left uniqueStrings_step input (∅, [])).

(** ** The shared state, its lock, and what a goroutine does to them *)

(** The fields of [scanResult], as names (for the trace) and typed. *)
Inductive FieldName :=
| NSubdomains | NVulnURLs | NFfufEntries | NAllURLs
| NLogLines | NFinalReport | NRunning | NProxyEnabled.

Inductive Field : Type -> Type :=
| FSubdomains : Field (list SubdomainResult)
| FVulnURLs : Field (list VulnerabilityResult)
| FFfufEntries : Field (list FfufResult)
| FAllURLs : Field (list string)
| FLogLines : Field (list string)
| FFinalReport : Field string
| FRunning : Field bool
| FProxyEnabled : Field bool.

Definition field_name {A} (f : Field A) : FieldName :=
  match f with
  | FSubdomains => NSubdomains
  | FVulnURLs => NVulnURLs
  | FFfufEntries => NFfufEntries
  | FAllURLs => NAllURLs
  | FLogLines => NLogLines
  | FFinalReport => NFinalReport
  | FRunning => NRunning
  | FProxyEnabled => NProxyEnabled
  end.

Definition get {A} (f : Field A) : ScanResult -> A :=
  match f in Field T return ScanResult -> T with
  | FSubdomains => Subdomains
  | FVulnURLs => VulnURLs
  | FFfufEntries => FfufEntries
  | FAllURLs => AllURLs
  | FLogLines => LogLines
  | FFinalReport => FinalReport
  | FRunning => Running
  | FProxyEnabled => ProxyEnabled
  end.

Definition set {A} (f : Field A) : A -> ScanResult -> ScanResult :=
  match f in Field T return T -> ScanResult -> ScanResult with
  | FSubdomains => fun v s =>
      {| Subdomains := v; VulnURLs := VulnURLs s; FfufEntries := FfufEntries s;
         AllURLs := AllURLs s; LogLines := LogLines s; FinalReport := FinalReport s;
         Running := Running s; ProxyEnabled := ProxyEnabled s |}
  | FVulnURLs => fun v s =>
      {| Subdomains := Subdomains s; VulnURLs := v; FfufEntries := FfufEntries s;
         AllURLs := AllURLs s; LogLines := LogLines s; FinalReport := FinalReport s;
         Running := Running s; ProxyEnabled := ProxyEnabled s |}
  | FFfufEntries => fun v s =>
      {| Subdomains := Subdomains s; VulnURLs := VulnURLs s; FfufEntries := v;
         AllURLs := AllURLs s; LogLines := LogLines s; FinalReport := FinalReport s;
         Running := Running s; ProxyEnabled := ProxyEnabled s |}
  | FAllURLs => fun v s =>
      {| Subdomains := Subdomains s; VulnURLs := VulnURLs s; FfufEntries := FfufEntries s;
         AllURLs := v; LogLines := LogLines s; FinalReport := FinalReport s;
         Running := Running s; ProxyEnabled := ProxyEnabled s |}
  | FLogLines => fun v s =>
      {| Subdomains := Subdomains s; VulnURLs := VulnURLs s; FfufEntries := FfufEntries s;
         AllURLs := AllURLs s; LogLines := v; FinalReport := FinalReport s;
         Running := Running s; ProxyEnabled := ProxyEnabled s |}
  | FFinalReport => fun v s =>
      {| Subdomains := Subdomains s; VulnURLs := VulnURLs s; FfufEntries := FfufEntries s;
         AllURLs := AllURLs s; LogLines := LogLines s; FinalReport := v;
         Running := Running s; ProxyEnabled := ProxyEnabled s |}
  | FRunning => fun v s =>
      {| Subdomains := Subdomains s; VulnURLs := VulnURLs s; FfufEntries := FfufEntries s;
         AllURLs := AllURLs s; LogLines := LogLines s; FinalReport := FinalReport s;
         Running := v; ProxyEnabled := ProxyEnabled s |}
  | FProxyEnabled => fun v s =>
      {| Subdomains := Subdomains s; VulnURLs := VulnURLs s; FfufEntries := FfufEntries s;
         AllURLs := AllURLs s; LogLines := LogLines s; FinalReport := FinalReport s;
         Running := Running s; ProxyEnabled := v |}
  end.

(** What a goroutine does, in program order: lock operations, accesses to
    the fields of [scanResult], and the external commands it starts. *)
Inductive Event :=
| ELock
| EUnlock
| ERead (f : FieldName)
| EWrite (f : FieldName)
| EExec (name : string) (args : list string).

(** The data a result file is written from. *)
Inductive FileContent :=
| TextLines (lines : list string)
| JsonVulnerabilities (v : list VulnerabilityResult)
| JsonEnrichment (hosts : list (list (string * string)))
| JsonSummary (s : ScanResult).

(** [scanResult] and [scanMu] (held by the goroutine at hand or not), the
    goroutine's events so far, each with [scanResult] as it is just after
    the event, and the files written in full. *)
Record World := {
  scanResult : ScanResult;
  scanMu : bool;
  trace : list (Event * ScanResult);
  files : list (string * FileContent)
}.

Definition M (A : Type) : Type := World -> A * World.

Definition ret {A} (a : A) : M A := fun w => (a, w).

Definition bind {A B} (m : M A) (k : A -> M B) : M B :=
  fun w => k (fst (m w)) (snd (m w)).

Definition exec {A} (m : M A) (w : World) : World := snd (m w).
Definition eval {A} (m : M A) (w : World) : A := fst (m w).

Declare Scope go_scope.
Delimit Scope go_scope with go.
Notation "x <- m ;; k" := (bind m (fun x => k))
  (at level 100, m at next level, right associativity) : go_scope.
Notation "m ;; k" := (bind m (fun _ => k))
  (at level 100, right associativity) : go_scope.
Local Open Scope go_scope.

Fixpoint forM_ {A} (l : list A) (body : A -> M unit) : M unit :=
  match l with
  | [] => ret tt
  | x :: l' => body x ;; forM_ l' body
  end.

Definition when (b : bool) (m : M unit) : M unit := if b then m else ret tt.

Definition emit (e : Event) (mu : bool) (s : ScanResult) (w : World) : World :=
  {| scanResult := s; scanMu := mu; trace := trace w ++ [(e, s)]; files := files w |}.

Definition Lock : M unit := fun w => (tt, emit ELock true (scanResult w) w).
Definition Unlock : M unit := fun w => (tt, emit EUnlock false (scanResult w) w).

Definition load {A} (f : Field A) : M A :=
  fun w => (get f (scanResult w), emit (ERead (field_name f)) (scanMu w) (scanResult w) w).

Definition store {A} (f : Field A) (v : A) : M unit :=
  fun w => (tt, emit (EWrite (field_name f)) (scanMu w) (set f v (scanResult w)) w).

(** [scanResult.f = g(scanResult.f)], as in [x = append(x, ...)]: the field
    is read, then written. *)
Definition modify {A} (f : Field A) (g : A -> A) : M unit :=
  v <- load f ;;
  store f (g v).

(** Passing [scanResult] by value copies every field. *)
Definition load_all : M ScanResult :=
  load FSubdomains ;; load FVulnURLs ;; load FFfufEntries ;; load FAllURLs ;;
  load FLogLines ;; load FFinalReport ;; load FRunning ;; load FProxyEnabled ;;
  fun w => (scanResult w, w).

(** ** The world outside the process *)

(** [exec.Command(...).CombinedOutput()]: the output and the error, if any. *)
Record CmdResult := {
  cmd_out : string;
  cmd_err : option string
}.

Record IPAddr := {
  ip_is_v4 : bool;
  ip_text : string
}.

Record HttpResponse := {
  StatusCode : Z;
  Body : string
}.

Record Env := {
  (** the outcome of running an external command *)
  run_command : string -> list string -> CmdResult;
  (** [net.LookupIP] *)
  lookup_ip : string -> list IPAddr * option string;
  (** [os.Getenv] *)
  getenv : string -> string;
  (** [time.Now().Format(time.RFC1123)] when the run is finalized *)
  now_rfc1123 : string;
  (** the order in which [range] visits the keys of a map (Go leaves it open) *)
  range_keys : gset string -> list string;
  (** the error of creating or writing a file, if any *)
  write_err : string -> option string;
  (** [ioutil.ReadFile] *)
  read_file : string -> string * option string;
  (** [http.Get] *)
  http_get : string -> HttpResponse + string;
  (** decoding a JSON object, each value as [%v] prints it *)
  json_decode : string -> option (list (string * string)) * option string
}.

(** [filepath.Join] of a directory and a file name, for a directory as
    [main] makes it: not empty and in clean form (no empty, "." or ".."
    element, no separator at its end).  On other directories
    [filepath.Join] also drops empty elements and cleans the result. *)
Definition filepath_Join (dir name : string) : string := dir +:+ "/" +:+ name.

Definition nl : string := String newline EmptyString.

(** ** Utility functions and the scanning pipeline (backend/main.go) *)

Section Pipeline.

Variable env : Env.

(** [AppendLog] safely appends a line to the scan log. *)
Definition AppendLog (line : string) : M unit :=
  Lock ;;
  modify FLogLines (fun l => l ++ [line]) ;;
  Unlock.

(** Creating and writing a file.  [files] lists the files written in
    full: a failure is reported and adds nothing to the list.  What a
    failed write may leave behind, a file that was created and is empty or
    partly written, is not recorded. *)
Definition write_file (path : string) (c : FileContent) : M (option string) :=
  fun w =>
    match write_err env path with
    | Some e => (Some e, w)
    | None =>
        (None, {| scanResult := scanResult w; scanMu := scanMu w; trace := trace w;
                  files := (path, c) :: files w |})
    end.

(** [WriteLines] writes a slice of strings to a file. *)
Definition WriteLines (lines : list string) (filePath : string) : M (option string) :=
  write_file filePath (TextLines lines).

(** [RunCommand] executes an external command and returns its output. *)
Definition RunCommand (name : string) (args : list string) : M (string * option string) :=
  fun w =>
    let r := run_command env name args in
    ((cmd_out r, cmd_err r), emit (EExec name args) (scanMu w) (scanResult w) w).

(** [if err != nil { AppendLog(prefix + err.Error()) }] *)
Definition log_error (prefix : string) (err : option string) : M unit :=
  match err with
  | Some e => AppendLog (prefix +:+ e)
  | None => ret tt
  end.

(** [EnumerateSubdomains] runs assetfinder and amass to find subdomains. *)
Definition EnumerateSubdomains (target chaosKey outDir : string) : M unit :=
  AppendLog "[*] Starting subdomain enumeration..." ;;
  asset <- RunCommand "assetfinder" [target] ;;
  log_error "[!] assetfinder error: " (snd asset) ;;
  amass <- RunCommand "amass"
             ["enum"; "-d"; target; "-passive"; "-norecursive"; "-noalts"; "-timeout"; "60"] ;;
  log_error "[!] amass error: " (snd amass) ;;
  let allSubs := Split_newline (fst asset) ++ Split_newline (fst amass) in
  let allSubs := uniqueStrings allSubs in
  forM_ allSubs (fun s =>
    if negb (String.eqb s "") then
      modify FSubdomains (fun subs =>
        subs ++ [{| Hostname := s; IP := "192.0.2.1"; Ports := [80%Z; 443%Z] |}]) ;;
      AppendLog ("[*] Discovered subdomain: " +:+ s)
    else ret tt) ;;
  _ <- WriteLines allSubs (filepath_Join outDir "subdomains.txt") ;;
  ret tt.

(** [isHostAlive] checks if the host resolves. *)
Definition isHostAlive (host : string) : bool :=
  match snd (lookup_ip env host) with
  | None => true
  | Some _ => false
  end.

Fixpoint foldM {A B} (body : B -> A -> M B) (l : list A) (acc : B) : M B :=
  match l with
  | [] => ret acc
  | x :: l' => acc' <- body acc x ;; foldM body l' acc'
  end.

(** [CheckLiveHosts] verifies which subdomains are live. *)
Definition CheckLiveHosts (outDir : string) : M unit :=
  AppendLog "[*] Checking live hosts..." ;;
  subs <- load FSubdomains ;;
  live <- foldM (fun live s =>
            if isHostAlive (Hostname s) then
              AppendLog ("[*] Live: " +:+ Hostname s) ;;
              ret (live ++ [Hostname s])
            else ret live) subs [] ;;
  _ <- WriteLines live (filepath_Join outDir "live_hosts.txt") ;;
  ret tt.

(** The scanner loop of [RunURLScan]: every non-empty line becomes a key. *)
Definition add_lines (out : string) (urlSet : gset string) : gset string :=
  fold_left (fun urlSet line =>
               if negb (String.eqb line "") then {[line]} ∪ urlSet else urlSet)
            (Bufio.ScanLines out) urlSet.

Definition collect_urls (prefix : string) (r : string * option string)
    (urlSet : gset string) : M (gset string) :=
  match snd r with
  | None => ret (add_lines (fst r) urlSet)
  | Some e => AppendLog (prefix +:+ e) ;; ret urlSet
  end.

(** [RunURLScan] runs additional URL discovery tools: hakrawler, gau, and
    waybackurls. *)
Definition RunURLScan (target outDir : string) : M unit :=
  AppendLog "[*] Running URL scanning tools (hakrawler, gau, waybackurls)..." ;;
  let urlSet : gset string := ∅ in
  hak <- RunCommand "hakrawler" ["-url"; "http://" +:+ target; "-depth"; "2"; "-plain"] ;;
  urlSet <- collect_urls "[!] hakrawler error: " hak urlSet ;;
  gau <- RunCommand "gau" ["--subs"; target] ;;
  urlSet <- collect_urls "[!] gau error: " gau urlSet ;;
  wayback <- RunCommand "bash" ["-c"; "echo " +:+ target +:+ " | waybackurls"] ;;
  urlSet <- collect_urls "[!] waybackurls error: " wayback urlSet ;;
  let urls := range_keys env urlSet in
  let urls := uniqueStrings urls in
  store FAllURLs urls ;;
  _ <- WriteLines urls (filepath_Join outDir "urls.txt") ;;
  AppendLog ("[*] URL scan complete, found " +:+ fmt_int (Z.of_nat (length urls)) +:+ " URLs").

(** [RunFuzzing] runs ffuf for fuzzing endpoints. *)
Definition RunFuzzing (target outDir : string) : M unit :=
  AppendLog "[*] Running ffuf fuzzing..." ;;
  let ffufOut := filepath_Join outDir "ffuf_results.json" in
  r <- RunCommand "ffuf"
         ["-w"; "/usr/share/seclists/Discovery/Web-Content/api/api-endpoints-res.txt:FUZZ";
          "-u"; "http://" +:+ target +:+ "/FUZZ";
          "-of"; "json"; "-o"; ffufOut] ;;
  match snd r with
  | Some e => AppendLog ("[!] ffuf error: " +:+ e)
  | None =>
      (* For demo, assume ffuf found one entry. *)
      store FFfufEntries [{| Path := "/admin"; Status := 200; Size := 512 |}] ;;
      AppendLog "[*] ffuf fuzzing completed."
  end.

(** [RunPreVulnTools] runs JSFINDER, ParamSpider, and ParamWizard. *)
Definition RunPreVulnTools (target outDir : string) : M unit :=
  AppendLog "[*] Running JSFINDER, ParamSpider, and ParamWizard..." ;;
  let epFile := filepath_Join outDir "endpoints.txt" in
  _ <- RunCommand "JSFinder" ["-u"; target; "-o"; epFile] ;;
  _ <- RunCommand "paramspider" ["--domain"; target; "--level"; "2"] ;;
  _ <- RunCommand "paramwizard" ["-t"; target] ;;
  AppendLog "[*] Pre-vulnerability endpoint discovery complete.".

(** [if err == nil { scanResult.VulnURLs = append(scanResult.VulnURLs, parse(out)...) }] *)
Definition collect_vulns (parse : string -> list VulnerabilityResult)
    (r : string * option string) : M unit :=
  match snd r with
  | None => modify FVulnURLs (fun v => v ++ parse (fst r))
  | Some _ => ret tt
  end.

(** [RunVulnerabilityScans] runs sqlmap, dalfox, etc. *)
Definition RunVulnerabilityScans (target outDir : string) : M unit :=
  AppendLog "[*] Starting vulnerability scanning..." ;;
  sql <- RunCommand "sqlmap" ["-u"; target; "--batch"] ;;
  collect_vulns ParseSqlmapOutput sql ;;
  dalfox <- RunCommand "dalfox" ["url"; target] ;;
  collect_vulns ParseDalfoxOutput dalfox ;;
  AppendLog "[*] Vulnerability scanning complete." ;;
  let vulnFile := filepath_Join outDir "vulnerabilities.json" in
  v <- load FVulnURLs ;;
  _ <- write_file vulnFile (JsonVulnerabilities v) ;;
  ret tt.

(** [ShodanLookup] queries Shodan API. *)
Definition ShodanLookup (ip apiKey : string)
    : option (list (string * string)) * option string :=
  if String.eqb apiKey "" then (None, Some "no Shodan API key provided")
  else
    let url := "https://api.shodan.io/shodan/host/" +:+ ip +:+ "?key=" +:+ apiKey in
    match http_get env url with
    | inr e => (None, Some e)
    | inl resp =>
        if negb (Z.eqb (StatusCode resp) 200)
        then (None, Some ("Shodan error: " +:+ Body resp))
        else json_decode env (Body resp)
    end.

(** [data[key]] printed with [%v]. *)
Fixpoint fmt_entry (key : string) (data : list (string * string)) : string :=
  match data with
  | [] => "<nil>"
  | (k, v) :: data' => if String.eqb k key then v else fmt_entry key data'
  end.

(** The IPv4 addresses a host resolves to. *)
Definition ipv4_of (s : SubdomainResult) : list string :=
  match lookup_ip env (Hostname s) with
  | (_, Some _) => []
  | (ipsFound, None) => map ip_text (filter (fun ip => ip_is_v4 ip = true) ipsFound)
  end.

(** [EnrichWithShodan] performs Shodan lookups for discovered live hosts. *)
Definition EnrichWithShodan (apiKey outDir : string) : M unit :=
  AppendLog "[*] Starting Shodan enrichment..." ;;
  subs <- load FSubdomains ;;
  let ips := flat_map ipv4_of subs in
  let ips := uniqueStrings ips in
  allData <- foldM (fun allData ip =>
               match ShodanLookup ip apiKey with
               | (Some data, None) =>
                   AppendLog ("[*] Shodan for " +:+ ip +:+ ": " +:+ fmt_entry "ports" data) ;;
                   ret (allData ++ [data])
               | _ => ret allData
               end) ips [] ;;
  _ <- write_file (filepath_Join outDir "enrichment.json") (JsonEnrichment allData) ;;
  AppendLog "[*] Shodan enrichment complete.".

(** [utils.PersistResults(scanResult, outDir)] *)
Definition PersistResults (outDir : string) : M (option string) :=
  result <- load_all ;;
  write_file (filepath_Join outDir "summary.json") (JsonSummary result).

(** The stages the scanning goroutine of [main] runs, in order. *)
Definition run_stages (target outDir : string) : M unit :=
  AppendLog "========== Starting Scan ==========" ;;
  EnumerateSubdomains target (getenv env "PDCHAOS_KEY") outDir ;;
  CheckLiveHosts outDir ;;
  RunURLScan target outDir ;;
  RunFuzzing target outDir ;;
  RunPreVulnTools target outDir ;;
  RunVulnerabilityScans target outDir ;;
  let key := getenv env "SHODAN_API_KEY" in
  when (negb (String.eqb key "")) (EnrichWithShodan key outDir).

(** The end of the goroutine: finalize report, last log line, persist. *)
Definition finalize (target outDir : string) : M unit :=
  Lock ;;
  store FRunning false ;;
  store FFinalReport ("Final report for " +:+ target +:+ " generated at " +:+ now_rfc1123 env) ;;
  Unlock ;;
  AppendLog "========== Scan Complete ==========" ;;
  _ <- PersistResults outDir ;;
  ret tt.

Definition scan_goroutine (target outDir : string) : M unit :=
  run_stages target outDir ;;
  finalize target outDir.

(** [main] initializes the global scan state under the lock. *)
Definition initial_state : ScanResult :=
  {| Subdomains := []; VulnURLs := []; FfufEntries := []; AllURLs := [];
     LogLines := []; FinalReport := ""; Running := true; ProxyEnabled := false |}.

Definition initial_world : World :=
  {| scanResult := initial_state; scanMu := false; trace := []; files := [] |}.

(** The world after the scanning goroutine of a run on [target]. *)
Definition run_scan (target outDir : string) : World :=
  exec (scan_goroutine target outDir) initial_world.

End Pipeline.

(** ** The TUI ([startTUI]) *)

Module TUI.

Inductive Page := PageSubdomains | PageVulnerabilities | PageFFUF | PageReport | PageProxy.

(** The text of each view and the page [pages] shows. *)
Record Views := {
  subdomainsView : string;
  vulnsView : string;
  ffufView : string;
  reportView : string;
  proxyView : string;
  consoleView : string;
  frontPage : Page
}.

Definition to_subdomainsView (f : string -> string) (v : Views) : Views :=
  {| subdomainsView := f (subdomainsView v); vulnsView := vulnsView v; ffufView := ffufView v;
     reportView := reportView v; proxyView := proxyView v; consoleView := consoleView v;
     frontPage := frontPage v |}.

Definition to_vulnsView (f : string -> string) (v : Views) : Views :=
  {| subdomainsView := subdomainsView v; vulnsView := f (vulnsView v); ffufView := ffufView v;
     reportView := reportView v; proxyView := proxyView v; consoleView := consoleView v;
     frontPage := frontPage v |}.

Definition to_ffufView (f : string -> string) (v : Views) : Views :=
  {| subdomainsView := subdomainsView v; vulnsView := vulnsView v; ffufView := f (ffufView v);
     reportView := reportView v; proxyView := proxyView v; consoleView := consoleView v;
     frontPage := frontPage v |}.

Definition to_reportView (f : string -> string) (v : Views) : Views :=
  {| subdomainsView := subdomainsView v; vulnsView := vulnsView v; ffufView := ffufView v;
     reportView := f (reportView v); proxyView := proxyView v; consoleView := consoleView v;
     frontPage := frontPage v |}.

Definition to_proxyView (f : string -> string) (v : Views) : Views :=
  {| subdomainsView := subdomainsView v; vulnsView := vulnsView v; ffufView := ffufView v;
     reportView := reportView v; proxyView := f (proxyView v); consoleView := consoleView v;
     frontPage := frontPage v |}.

Definition to_consoleView (f : string -> string) (v : Views) : Views :=
  {| subdomainsView := subdomainsView v; vulnsView := vulnsView v; ffufView := ffufView v;
     reportView := reportView v; proxyView := proxyView v; consoleView := f (consoleView v);
     frontPage := frontPage v |}.

Definition SwitchToPage (p : Page) (v : Views) : Views :=
  {| subdomainsView := subdomainsView v; vulnsView := vulnsView v; ffufView := ffufView v;
     reportView := reportView v; proxyView := proxyView v; consoleView := consoleView v;
     frontPage := p |}.

(** [view.Clear()], [view.SetText(t)] and [fmt.Fprintf(view, ...)]. *)
Definition Clear : string -> string := fun _ => "".
Definition SetText (t : string) : string -> string := fun _ => t.
Definition Fprint (t : string) : string -> string := fun old => old +:+ t.

Definition updateProxyView (enabled : bool) : Views -> Views :=
  to_proxyView (SetText (if enabled then "[green::b]Proxy Active: http://127.0.0.1:8080"
                         else "[red::b]Proxy Disabled")).

(** The views when [startTUI] has built the layout. *)
Definition initial_views : Views :=
  updateProxyView false
    {| subdomainsView := ""; vulnsView := ""; ffufView := ""; reportView := "";
       proxyView := ""; consoleView := ""; frontPage := PageSubdomains |}.

Local Open Scope char_scope.

(** The proxy toggle of the key handler. *)
Definition toggleProxy (v : Views) : M Views :=
  Lock ;;
  modify FProxyEnabled negb ;;
  Unlock ;;
  p <- load FProxyEnabled ;;
  let v := updateProxyView p v in
  p <- load FProxyEnabled ;;
  AppendLog ("[*] Proxy enabled: " +:+ fmt_bool p) ;;
  ret v.

(** The input capture of the layout: keybindings for tab switching and
    proxy toggle; any other key does nothing. *)
Definition handleKey (rune : ascii) (v : Views) : M Views :=
  if Ascii.eqb rune "1" then ret (SwitchToPage PageSubdomains v)
  else if Ascii.eqb rune "2" then ret (SwitchToPage PageVulnerabilities v)
  else if Ascii.eqb rune "3" then ret (SwitchToPage PageFFUF v)
  else if Ascii.eqb rune "4" then ret (SwitchToPage PageReport v)
  else if Ascii.eqb rune "5" then ret (SwitchToPage PageProxy v)
  else if Ascii.eqb rune "p" || Ascii.eqb rune "P" then toggleProxy v
  else ret v.

Local Close Scope char_scope.

Definition subdomain_row (sub : SubdomainResult) : string :=
  Hostname sub +:+ " - IP: " +:+ IP sub +:+ " | Ports: " +:+ fmt_ints (Ports sub) +:+ nl.

Definition vuln_row (v : VulnerabilityResult) : string :=
  "[yellow::b]" +:+ Issue v +:+ "[-:-:-]: " +:+ URL v +:+ nl.

Definition ffuf_row (f : FfufResult) : string :=
  Path f +:+ " (Status: " +:+ fmt_int (Status f) +:+ ", Size: " +:+ fmt_int (Size f) +:+ ")" +:+ nl.

(** One round of the goroutine that periodically updates the views with
    scan data (it then sleeps two seconds). *)
Definition updateViews (v : Views) : M Views :=
  running <- load FRunning ;;
  if negb running then
    let v := to_subdomainsView Clear v in
    Lock ;;
    subs <- load FSubdomains ;;
    let v := fold_left (fun v sub => to_subdomainsView (Fprint (subdomain_row sub)) v) subs v in
    let v := to_vulnsView Clear v in
    vulns <- load FVulnURLs ;;
    let v := fold_left (fun v x => to_vulnsView (Fprint (vuln_row x)) v) vulns v in
    let v := to_ffufView Clear v in
    entries <- load FFfufEntries ;;
    let v := fold_left (fun v f => to_ffufView (Fprint (ffuf_row f)) v) entries v in
    report <- load FFinalReport ;;
    let v := to_reportView (SetText report) v in
    Unlock ;;
    ret v
  else ret v.

(** [strings.ToLower] as it works on ASCII text: the letters A to Z are
    lowered and every other byte is kept.  (On other text the library
    goes rune by rune; that makes no difference to the two words
    [console_row] looks for.) *)
Definition lower_byte (c : ascii) : ascii :=
  let n := nat_of_ascii c in
  if Nat.leb 65 n && Nat.leb n 90 then ascii_of_nat (n + 32) else c.

Fixpoint ToLower (s : string) : string :=
  match s with
  | EmptyString => EmptyString
  | String c s' => String (lower_byte c) (ToLower s')
  end.

Definition console_row (line : string) : string :=
  if Contains (ToLower line) "vulnerable" || Contains (ToLower line) "error"
  then "[red::b]" +:+ line +:+ "[-:-:-]" +:+ nl
  else line +:+ nl.

(** One round of the goroutine that updates the console view (it then
    sleeps one second). *)
Definition updateConsole (v : Views) : M Views :=
  let v := to_consoleView Clear v in
  Lock ;;
  lines <- load FLogLines ;;
  let v := fold_left (fun v line => to_consoleView (Fprint (console_row line)) v) lines v in
  Unlock ;;
  ret v.

End TUI.

(** ** The stage variants of the [scanners] package

    They work on the [ScanResult] behind the pointer [result] and report
    through the callback [logFn]; the model returns the result and the lines
    handed to [logFn], in order.  [utils.RunCommand], [utils.UniqueStrings]
    and [utils.WriteLines] are not part of the sources and are taken as
    given, like the library's [ioutil.ReadFile] and [json.Unmarshal]. *)

Module Scanners.

Section Stages.

Variable utils_RunCommand : string -> list string -> string * option string.
Variable utils_UniqueStrings : list string -> list string.
Variable utils_WriteLines : list string -> string -> option string.
Variable ioutil_ReadFile : string -> string * option string.
Variable json_Unmarshal : string -> option FfufResult.

Definition log_if (prefix : string) (err : option string) : list string :=
  match err with
  | Some e => [prefix +:+ e]
  | None => []
  end.

(** One round of the loop over [allSubs]. *)
Definition add_subdomain (st : ScanResult * list string) (s : string)
    : ScanResult * list string :=
  if negb (String.eqb s "") then
    (set FSubdomains
       (Subdomains (fst st)
          ++ [{| Hostname := s; IP := "192.0.2.1"; Ports := [80%Z; 443%Z] |}])
       (fst st),
     snd st ++ ["[*] Discovered subdomain: " +:+ s])
  else st.

(** [EnumerateSubdomains] runs assetfinder and amass (passive mode) to
    enumerate subdomains. *)
Definition EnumerateSubdomains (target chaosKey outDir : string) (result : ScanResult)
    : ScanResult * list string :=
  let log := ["[*] Starting subdomain enumeration..."] in
  let asset := utils_RunCommand "assetfinder" [target] in
  let log := log ++ log_if "[!] assetfinder error: " (snd asset) in
  let amass := utils_RunCommand "amass"
                 ["enum"; "-d"; target; "-passive"; "-norecursive"; "-noalts"; "-timeout"; "60"] in
  let log := log ++ log_if "[!] amass error: " (snd amass) in
  let allSubs := Split_newline (fst asset) ++ Split_newline (fst amass) in
  let allSubs := utils_UniqueStrings allSubs in
  let st := fold_left add_subdomain allSubs (result, log) in
  let err := utils_WriteLines allSubs (filepath_Join outDir "subdomains.txt") in
  (fst st, snd st ++ log_if "[!] Failed to write subdomains: " err).

(** The loop of [RunFuzzing] over the lines of the output file. *)
Definition parse_entries (data : string) : list FfufResult :=
  fold_left (fun ffufResults line =>
               match json_Unmarshal line with
               | Some entry => ffufResults ++ [entry]
               | None => ffufResults
               end)
            (Bufio.ScanLines data) [].

(** [RunFuzzing] runs ffuf with a default wordlist to find hidden endpoints. *)
Definition RunFuzzing (target outDir : string) (result : ScanResult)
    : ScanResult * list string :=
  let log := ["[*] Running ffuf fuzzing..."] in
  let ffufOut := filepath_Join outDir "ffuf_results.json" in
  let r := utils_RunCommand "ffuf"
             ["-w"; "/usr/share/seclists/Discovery/Web-Content/api/api-endpoints-res.txt:FUZZ";
              "-u"; "http://" +:+ target +:+ "/FUZZ";
              "-of"; "json"; "-o"; ffufOut] in
  match snd r with
  | Some e => (result, log ++ ["[!] ffuf error: " +:+ e])
  | None =>
      let file := ioutil_ReadFile ffufOut in
      match snd file with
      | Some e => (result, log ++ ["[!] Failed to read ffuf output: " +:+ e])
      | None =>
          let ffufResults := parse_entries (fst file) in
          (set FFfufEntries ffufResults result,
           log ++ ["[*] ffuf fuzzing completed, found "
                     +:+ fmt_int (Z.of_nat (length ffufResults)) +:+ " entries"])
      end
  end.

End Stages.

End Scanners.

(** ** What the specification talks about *)

(** The lock discipline of a goroutine: every access to a field of
    [scanResult] happens while the goroutine holds [scanMu]. *)
Fixpoint guarded (held : bool) (t : list Event) : bool :=
  match t with
  | [] => true
  | ELock :: t' => guarded true t'
  | EUnlock :: t' => guarded false t'
  | ERead _ :: t' => held && guarded held t'
  | EWrite _ :: t' => held && guarded held t'
  | EExec _ _ :: t' => guarded held t'
  end.

Definition lock_discipline (t : list (Event * ScanResult)) : bool :=
  guarded false (map fst t).

(** The accesses of a trace made outside the lock. *)
Fixpoint unguarded (held : bool) (t : list Event) : list Event :=
  match t with
  | [] => []
  | ELock :: t' => unguarded true t'
  | EUnlock :: t' => unguarded false t'
  | ERead f :: t' => (if held then [] else [ERead f]) ++ unguarded held t'
  | EWrite f :: t' => (if held then [] else [EWrite f]) ++ unguarded held t'
  | EExec _ _ :: t' => unguarded held t'
  end.

(** The states another goroutine can find when it takes the lock: the one
    at the start and the one after every event that leaves the lock free. *)
Fixpoint free_states (held : bool) (t : list (Event * ScanResult)) : list ScanResult :=
  match t with
  | [] => []
  | (e, s) :: t' =>
      let held' := match e with ELock => true | EUnlock => false | _ => held end in
      (if held' then [] else [s]) ++ free_states held' t'
  end.

Definition snapshots (w0 w : World) : list ScanResult :=
  scanResult w0 :: free_states (scanMu w0) (trace w).

(** How often a flag goes from true to false along a sequence. *)
Fixpoint falls (prev : bool) (l : list bool) : nat :=
  match l with
  | [] => 0
  | b :: l' => (if prev && negb b then 1 else 0) + falls b l'
  end.

Definition running_falls (w0 w : World) : nat :=
  falls (Running (scanResult w0)) (map (fun e => Running (snd e)) (trace w)).

Definition is_write (e : Event) : bool :=
  match e with
  | EWrite _ => true
  | _ => false
  end.

(** The fields written, in order. *)
Definition writes (t : list (Event * ScanResult)) : list Event :=
  List.filter is_write (map fst t).

(** The external commands started, in order. *)
Fixpoint commands (t : list (Event * ScanResult)) : list string :=
  match t with
  | [] => []
  | (EExec name _, _) :: t' => name :: commands t'
  | _ :: t' => commands t'
  end.

(** A goroutine only adds events, and every state it goes through is
    related by [Q] to the state it started from. *)
Definition extends (Q : ScanResult -> ScanResult -> Prop) (w w' : World) : Prop :=
  exists d, trace w' = trace w ++ d /\
            Forall (fun e => Q (scanResult w) (snd e)) d /\
            Q (scanResult w) (scanResult w').

Definition respects {A} (Q : ScanResult -> ScanResult -> Prop) (m : M A) : Prop :=
  forall w, extends Q w (exec m w).

(** What no stage of the pipeline changes before the run is finalized, and
    that the log only grows. *)
Definition stage_step (s s' : ScanResult) : Prop :=
  Running s' = Running s /\ FinalReport s' = FinalReport s /\
  ProxyEnabled s' = ProxyEnabled s /\
  exists added, LogLines s' = LogLines s ++ added.

(** A field is left alone. *)
Definition keeps {A} (f : Field A) (s s' : ScanResult) : Prop := get f s' = get f s.

(** The log only grows. *)
Definition log_grows (s s' : ScanResult) : Prop :=
  exists added, LogLines s' = LogLines s ++ added.


(** The events of the end of the scanning goroutine: the critical section
    that finalizes the report, the last log line, and the copy of the
    state that is persisted. *)
Definition finalize_events : list Event :=
  [ELock; EWrite NRunning; EWrite NFinalReport; EUnlock;
   ELock; ERead NLogLines; EWrite NLogLines; EUnlock;
   ERead NSubdomains; ERead NVulnURLs; ERead NFfufEntries; ERead NAllURLs;
   ERead NLogLines; ERead NFinalReport; ERead NRunning; ERead NProxyEnabled].

(** The rows of a pane, one after the other. *)
Definition concat_rows {A} (row : A -> string) (l : list A) : string :=
  fold_right (fun x text => row x +:+ text) "" l.

(** The four result panes show the state [s]. *)
Definition shows (s : ScanResult) (v : TUI.Views) : Prop :=
  TUI.subdomainsView v = concat_rows TUI.subdomain_row (Subdomains s) /\
  TUI.vulnsView v = concat_rows TUI.vuln_row (VulnURLs s) /\
  TUI.ffufView v = concat_rows TUI.ffuf_row (FfufEntries s) /\
  TUI.reportView v = FinalReport s.

(** The record the enumeration stage makes for a host. *)
Definition demo_subdomain (host : string) : SubdomainResult :=
  {| Hostname := host; IP := "192.0.2.1"; Ports := [80%Z; 443%Z] |}.

Definition nonempty (s : string) : bool := negb (String.eqb s "").

(** A line "contains a URL": some part of it is in the pattern's language. *)
Definition has_url (line : string) : Prop :=
  exists pre u post, line = pre +:+ u +:+ post /\ matches url_pattern u.

Definition has_marker (marker line : string) : Prop :=
  exists pre post, line = pre +:+ marker +:+ post.

(** The states of the end of the scanning goroutine, from the state [s]
    the stages leave: [Running] cleared, the report written, the last line
    logged. *)
Definition stopped (s : ScanResult) : ScanResult := set FRunning false s.

Definition reported (report : string) (s : ScanResult) : ScanResult :=
  set FFinalReport report (stopped s).

Definition completed (report : string) (s : ScanResult) : ScanResult :=
  set FLogLines (LogLines s ++ ["========== Scan Complete =========="]) (reported report s).

Definition finalize_trace (report : string) (s : ScanResult) : list (Event * ScanResult) :=
  [(ELock, s); (EWrite NRunning, stopped s); (EWrite NFinalReport, reported report s);
   (EUnlock, reported report s);
   (ELock, reported report s); (ERead NLogLines, reported report s);
   (EWrite NLogLines, completed report s); (EUnlock, completed report s);
   (ERead NSubdomains, completed report s); (ERead NVulnURLs, completed report s);
   (ERead NFfufEntries, completed report s); (ERead NAllURLs, completed report s);
   (ERead NLogLines, completed report s); (ERead NFinalReport, completed report s);
   (ERead NRunning, completed report s); (ERead NProxyEnabled, completed report s)].

(** The text [finalize] puts in [FinalReport]. *)
Definition report_text (env : Env) (target : string) : string :=
  "Final report for " +:+ target +:+ " generated at " +:+ now_rfc1123 env.

(** The views after a redraw of the four result panes from the state [s]. *)
Definition redrawn (s : ScanResult) (v : TUI.Views) : TUI.Views :=
  {| TUI.subdomainsView := concat_rows TUI.subdomain_row (Subdomains s);
     TUI.vulnsView := concat_rows TUI.vuln_row (VulnURLs s);
     TUI.ffufView := concat_rows TUI.ffuf_row (FfufEntries s);
     TUI.reportView := FinalReport s;
     TUI.proxyView := TUI.proxyView v;
     TUI.consoleView := TUI.consoleView v;
     TUI.frontPage := TUI.frontPage v |}.

(** The arguments [RunFuzzing] gives ffuf. *)
Definition ffuf_args (target outDir : string) : list string :=
  ["-w"; "/usr/share/seclists/Discovery/Web-Content/api/api-endpoints-res.txt:FUZZ";
   "-u"; "http://" +:+ target +:+ "/FUZZ";
   "-of"; "json"; "-o"; filepath_Join outDir "ffuf_results.json"].

(** The entry [RunFuzzing] of backend/main.go reports. *)
Definition demo_entry : FfufResult := {| Path := "/admin"; Status := 200; Size := 512 |}.

(** The last field written in a trace. *)
Definition last_write (t : list (Event * ScanResult)) : option Event :=
  last (writes t).

(** A snapshot is consistent when it either still says the scan is running
    or carries the final report. *)
Definition report_ready (s : ScanResult) : Prop :=
  Running s = true \/ FinalReport s <> "".

(** The end of a run as the specification words it: [Running] falls once,
    that write is the last write of the run, and every snapshot is
    consistent. *)
Definition finalized_last (w0 w : World) : Prop :=
  running_falls w0 w = 1 /\
  last_write (trace w) = Some (EWrite NRunning) /\
  Forall report_ready (snapshots w0 w).

(** Every failed command of the trace left a log line with its error. *)
Definition failures_logged (env : Env) (w : World) : bool :=
  forallb (fun e =>
             match e with
             | EExec name args =>
                 match cmd_err (run_command env name args) with
                 | Some err => existsb (fun line => Contains line err) (LogLines (scanResult w))
                 | None => true
                 end
             | _ => true
             end)
          (map fst (trace w)).

(** The error line the stages write for a failed command, if it failed. *)
Definition error_line (env : Env) (prefix name : string) (args : list string) : list string :=
  match cmd_err (run_command env name args) with
  | Some e => [prefix +:+ e]
  | None => []
  end.





(** What the loop of [uniqueStrings] keeps true: [res] has no duplicates
    and [seen] marks exactly its elements. *)
Definition unique_inv (st : gmap string bool * list string) : Prop :=
  NoDup (snd st) /\ forall x, x ∈ snd st <-> fst st !! x = Some true.

(** ** Sample worlds *)

Definition sqlmap_line : string :=
  "[12:00:00] [INFO] GET parameter 'id' is vulnerable. http://example.com/page?id=1".

Definition no_output : CmdResult := {| cmd_out := ""; cmd_err := None |}.

(** An environment given by its commands: no name resolves, nothing is set,
    every file can be written, and [range] visits keys in [elements] order. *)
Definition env_of (commands : string -> list string -> CmdResult) : Env :=
  {| run_command := commands;
     lookup_ip := fun _ => ([], Some "no such host");
     getenv := fun _ => "";
     now_rfc1123 := "Fri, 30 Oct 2026 20:00:00 UTC";
     range_keys := elements;
     write_err := fun _ => None;
     read_file := fun _ => ("", None);
     http_get := fun _ => inr "no route to host";
     json_decode := fun _ => (None, Some "EOF") |}.

(** Every tool succeeds and prints nothing. *)
Definition quiet_env : Env := env_of (fun _ _ => no_output).

(** assetfinder finds one host. *)
Definition one_host_env : Env :=
  env_of (fun name _ =>
            if String.eqb name "assetfinder"
            then {| cmd_out := "a.example.com" +:+ nl; cmd_err := None |}
            else no_output).

(** sqlmap fails; everything else succeeds and prints nothing. *)
Definition sqlmap_fails_env : Env :=
  env_of (fun name _ =>
            if String.eqb name "sqlmap"
            then {| cmd_out := ""; cmd_err := Some "exit status 1" |}
            else no_output).


(** The three URL tools print overlapping lines. *)
Definition overlapping_urls_env : Env :=
  env_of (fun name _ =>
            if String.eqb name "hakrawler"
            then {| cmd_out := "http://a/1" +:+ nl +:+ "http://a/2" +:+ nl +:+ "http://a/1" +:+ nl;
                    cmd_err := None |}
            else if String.eqb name "gau"
            then {| cmd_out := "http://a/2" +:+ nl +:+ "http://a/3" +:+ nl; cmd_err := None |}
            else no_output).

(** A line of 128 KiB, more than the scanner's buffer holds, then a line
    with the marker and a URL. *)
Fixpoint doubled (k : nat) (s : string) : string :=
  match k with
  | O => s
  | S k' => doubled k' (s +:+ s)
  end.

Definition long_line : string := doubled 17 "a".

Definition poc_line : string := "[POC][G][GET] http://example.com/?q=%3Csvg%3E".

Definition dalfox_long_output : string := long_line +:+ nl +:+ poc_line +:+ nl.

(** The same long line, then the sample line of sqlmap. *)
Definition sqlmap_long_output : string := long_line +:+ nl +:+ sqlmap_line +:+ nl.

(** A scan in progress with one subdomain found. *)
Definition running_world : World :=
  {| scanResult :=
       {| Subdomains := [{| Hostname := "a.example.com"; IP := "192.0.2.1"; Ports := [80%Z; 443%Z] |}];
          VulnURLs := []; FfufEntries := []; AllURLs := [];
          LogLines := ["[*] Discovered subdomain: a.example.com"];
          FinalReport := ""; Running := true; ProxyEnabled := false |};
     scanMu := false; trace := []; files := [] |}.


(** ** Further notions for the properties of the code *)

(** The bytes [WriteLines] writes to the file: every line followed by a
    newline. *)
Definition WriteLines_text (lines : list string) : string :=
  fold_right (fun l text => l +:+ nl +:+ text) EmptyString lines.

Fixpoint last_byte (s : string) : option ascii :=
  match s with
  | EmptyString => None
  | String c EmptyString => Some c
  | String _ s' => last_byte s'
  end.

(** A line the scanner gives back as it is: no newline in it, no carriage
    return at its end, shorter than the scanner's buffer. *)
Definition plain_line (l : string) : bool :=
  forallb (fun c => negb (Ascii.eqb c newline)) (list_ascii_of_string l)
  && match last_byte l with
     | Some c => negb (Ascii.eqb c carriage_return)
     | None => true
     end
  && Nat.ltb (String.length l) Bufio.MaxScanTokenSize.

(** The arguments [EnumerateSubdomains] gives amass. *)
Definition amass_args (target : string) : list string :=
  ["enum"; "-d"; target; "-passive"; "-norecursive"; "-noalts"; "-timeout"; "60"].

(** The lines [EnumerateSubdomains] merges: the output of assetfinder split
    at newlines, then that of amass. *)
Definition enumerated_lines (env : Env) (target : string) : list string :=
  Split_newline (cmd_out (run_command env "assetfinder" [target]))
  ++ Split_newline (cmd_out (run_command env "amass" (amass_args target))).

(** The hosts of [subs] that resolve, in order. *)
Definition live_hosts (env : Env) (subs : list SubdomainResult) : list string :=
  List.filter (isHostAlive env) (map Hostname subs).

(** What a parser finds in the output of a command that succeeded; the
    output of a failed command is not parsed. *)
Definition findings_of (parse : string -> list VulnerabilityResult) (r : CmdResult)
    : list VulnerabilityResult :=
  match cmd_err r with
  | None => parse (cmd_out r)
  | Some _ => []
  end.

(** The files written in full after an attempt to write [c] to [path]. *)
Definition written (env : Env) (path : string) (c : FileContent)
    (fs : list (string * FileContent)) : list (string * FileContent) :=
  match write_err env path with
  | Some _ => fs
  | None => (path, c) :: fs
  end.

(** The lines the scanner delivers from the output of a command that
    succeeded; the output of a failed command is not read. *)
Definition delivered_lines (r : CmdResult) : list string :=
  match cmd_err r with
  | None => Bufio.ScanLines (cmd_out r)
  | Some _ => []
  end.

(** The lines [RunURLScan] reads: those of hakrawler, gau and waybackurls. *)
Definition url_tool_lines (env : Env) (target : string) : list string :=
  delivered_lines (run_command env "hakrawler"
                     ["-url"; "http://" +:+ target; "-depth"; "2"; "-plain"])
  ++ delivered_lines (run_command env "gau" ["--subs"; target])
  ++ delivered_lines (run_command env "bash" ["-c"; "echo " +:+ target +:+ " | waybackurls"]).

(** The addresses [EnrichWithShodan] looks up: the IPv4 addresses of the
    subdomains that resolve, each once. *)
Definition enrichment_ips (env : Env) (subs : list SubdomainResult) : list string :=
  uniqueStrings (flat_map (ipv4_of env) subs).

(** The lookups that gave data, with their address. *)
Definition shodan_hits (env : Env) (apiKey : string) (ips : list string)
    : list (string * list (string * string)) :=
  flat_map (fun ip =>
              match ShodanLookup env ip apiKey with
              | (Some data, None) => [(ip, data)]
              | _ => []
              end) ips.

Definition shodan_line (hit : string * list (string * string)) : string :=
  "[*] Shodan for " +:+ fst hit +:+ ": " +:+ fmt_entry "ports" (snd hit).

(** ** What a goroutine does with the mutex, step by step *)

Definition held_next (held : bool) (e : Event) : bool :=
  match e with
  | ELock => true
  | EUnlock => false
  | _ => held
  end.

(** Every step of a trace satisfies [P]: [P held s e s'] is asked of the
    event [e] that leads from the state [s] to [s'], with [held] telling
    whether the goroutine holds [scanMu] when it happens. *)
Fixpoint walks (P : bool -> ScanResult -> Event -> ScanResult -> Prop)
    (held : bool) (s : ScanResult) (t : list (Event * ScanResult)) : Prop :=
  match t with
  | [] => True
  | (e, s') :: t' => P held s e s' /\ walks P (held_next held e) s' t'
  end.

Definition held_after (held : bool) (t : list (Event * ScanResult)) : bool :=
  fold_left (fun h e => held_next h (fst e)) t held.

Definition state_after (s : ScanResult) (t : list (Event * ScanResult)) : ScanResult :=
  fold_left (fun _ e => snd e) t s.

(** A computation entered with the mutex in state [h] leaves it in state
    [h'], and every step it adds to the trace satisfies [P]. *)
Definition follows {A} (P : bool -> ScanResult -> Event -> ScanResult -> Prop)
    (h h' : bool) (m : M A) : Prop :=
  forall w, exists d,
    trace (exec m w) = trace w ++ d /\
    walks P h (scanResult w) d /\
    held_after h d = h' /\
    state_after (scanResult w) d = scanResult (exec m w).

(** The fields written inside critical sections. *)
Definition guarded_field (f : FieldName) : bool :=
  match f with
  | NLogLines | NFinalReport | NRunning | NProxyEnabled => true
  | _ => false
  end.

(** [sync.Mutex] is not reentrant: locking it again blocks the goroutine
    for good, and unlocking it when it is not locked is a fatal error.  A
    critical section should also be short: no external command inside. *)
Definition lock_policy (held : bool) (e : Event) : bool :=
  match e with
  | ELock => negb held
  | EUnlock => held
  | EExec _ _ => negb held
  | EWrite f => held || negb (guarded_field f)
  | ERead _ => true
  end.

(** The mutex at the end of a sequence of events that keeps to the policy. *)
Fixpoint lock_use (held : bool) (t : list Event) : option bool :=
  match t with
  | [] => Some held
  | e :: t' => if lock_policy held e then lock_use (held_next held e) t' else None
  end.

Definition keeps_policy (held : bool) (s : ScanResult) (e : Event) (s' : ScanResult) : Prop :=
  lock_policy held e = true.

(** A step only adds to the findings and to the log, at the end, and
    leaves the proxy flag alone. *)
Definition only_adds (held : bool) (s : ScanResult) (e : Event) (s' : ScanResult) : Prop :=
  Subdomains s `prefix_of` Subdomains s' /\
  VulnURLs s `prefix_of` VulnURLs s' /\
  LogLines s `prefix_of` LogLines s' /\
  ProxyEnabled s' = ProxyEnabled s.

(** A computation that is entered with the mutex free keeps to the policy
    and leaves the mutex free. *)
Definition uses_lock_well {A} (m : M A) : Prop :=
  forall w, exists d,
    trace (exec m w) = trace w ++ d /\ lock_use false (map fst d) = Some false.

(** The fields that hold what the scan found. *)
Definition same_findings (s s' : ScanResult) : Prop :=
  Subdomains s' = Subdomains s /\ VulnURLs s' = VulnURLs s /\
  FfufEntries s' = FfufEntries s /\ AllURLs s' = AllURLs s /\
  FinalReport s' = FinalReport s /\ Running s' = Running s.

(** * Properties *)

(** ** Strings *)

#[local] Arguments String.append !_ _ / : simpl nomatch.

Section StringFacts.

Lemma append_nil_r (s : string) : s +:+ "" = s.
Proof. induction s as [|c s IH]; simpl; [reflexivity | now rewrite IH]. Qed.

Lemma append_assoc (a b c : string) : (a +:+ b) +:+ c = a +:+ (b +:+ c).
Proof. induction a as [|x a IH]; simpl; [reflexivity | now rewrite IH]. Qed.

Lemma append_eq_nil (a b : string) : a +:+ b = "" -> a = "" /\ b = "".
Proof. destruct a; simpl; [auto | discriminate]. Qed.

Lemma HasPrefix_append (p t : string) : HasPrefix (p +:+ t) p = true.
Proof.
  induction p as [|c p IH]; simpl; [reflexivity |].
  now rewrite Ascii.eqb_refl.
Qed.

Lemma HasPrefix_inv (s p : string) :
  HasPrefix s p = true -> exists t, s = p +:+ t.
Proof.
  revert s. induction p as [|c p IH]; intros s H; simpl in *.
  - now exists s.
  - destruct s as [|d s]; [discriminate |].
    destruct (Ascii.eqb_spec c d) as [->|]; [| discriminate].
    destruct (IH _ H) as [t ->]. now exists t.
Qed.

Lemma skip_append (p t : string) : skip (String.length p) (p +:+ t) = t.
Proof. induction p as [|c p IH]; simpl; [now destruct t | exact IH]. Qed.

(** [strings.Contains] finds exactly the substrings. *)
Lemma Contains_prefix (s sub : string) :
  HasPrefix s sub = true -> Contains s sub = true.
Proof. intros H. destruct s; simpl; rewrite H; reflexivity. Qed.

Lemma Contains_intro (pre sub post : string) :
  Contains (pre +:+ sub +:+ post) sub = true.
Proof.
  induction pre as [|c pre IH].
  - change (Contains (sub +:+ post) sub = true).
    apply Contains_prefix, HasPrefix_append.
  - simpl. rewrite IH. apply orb_true_r.
Qed.

Lemma Contains_inv (s sub : string) :
  Contains s sub = true -> has_marker sub s.
Proof.
  induction s as [|c s IH]; simpl; intros H.
  - rewrite orb_false_r in H. apply HasPrefix_inv in H as [t ->].
    now exists "", t.
  - apply orb_true_iff in H as [H|H].
    + apply HasPrefix_inv in H as [t ->]. now exists "", t.
    + destruct (IH H) as (pre & post & ->). now exists (String c pre), post.
Qed.

Lemma Contains_spec (s sub : string) :
  Contains s sub = true <-> has_marker sub s.
Proof.
  split; [apply Contains_inv |].
  intros (pre & post & ->). apply Contains_intro.
Qed.

End StringFacts.

(** ** The matcher finds what the pattern describes *)

Section RegexpFacts.

Lemma run_class_sound p s m rest :
  In (m, rest) (run_class p s) -> s = m +:+ rest /\ matches (PlusClass p) m.
Proof.
  revert m rest. induction s as [|c s IH]; simpl; intros m rest H; [contradiction |].
  destruct (p c) eqn:Hc; [| contradiction].
  apply in_app_iff in H as [H|[H|[]]].
  - apply in_map_iff in H as ([m' rest'] & [= <- <-] & H). simpl.
    destruct (IH _ _ H) as [-> Hm]. split; [reflexivity |].
    now apply matches_PlusClass_more.
  - injection H as <- <-. split; [reflexivity |]. now apply matches_PlusClass_one.
Qed.

Lemma run_sound r : forall s m rest,
  In (m, rest) (run r s) -> s = m +:+ rest /\ matches r m.
Proof.
  induction r as [l | r IH | p | r1 IH1 r2 IH2]; simpl; intros s m rest H.
  - destruct (HasPrefix s l) eqn:E; [| contradiction].
    destruct H as [[= <- <-]|[]]. apply HasPrefix_inv in E as [t ->].
    rewrite skip_append. split; [reflexivity | constructor].
  - apply in_app_iff in H as [H|[[= <- <-]|[]]].
    + destruct (IH _ _ _ H). split; [assumption | now apply matches_Opt_some].
    + split; [reflexivity | constructor].
  - now apply run_class_sound.
  - apply in_flat_map in H as ([m1 s1] & H1 & H). simpl in H.
    apply in_map_iff in H as ([m2 s2] & [= <- <-] & H2).
    destruct (IH1 _ _ _ H1) as [-> Hm1]. destruct (IH2 _ _ _ H2) as [-> Hm2].
    split; [now rewrite append_assoc | now constructor].
Qed.

Lemma run_complete r m :
  matches r m -> forall rest, In (m, rest) (run r (m +:+ rest)).
Proof.
  induction 1 as [l | r | r s _ IH | p c Hc | p c s Hc _ IH | r1 r2 s1 s2 _ IH1 _ IH2];
    intros rest; simpl.
  - rewrite HasPrefix_append, skip_append. now left.
  - apply in_app_iff. right. now left.
  - apply in_app_iff. left. apply IH.
  - rewrite Hc. apply in_app_iff. right. now left.
  - rewrite Hc. apply in_app_iff. left.
    apply in_map_iff. exists (s, rest). split; [reflexivity | apply IH].
  - apply in_flat_map. exists (s1, s2 +:+ rest). split.
    + rewrite append_assoc. apply IH1.
    + apply in_map_iff. exists (s2, rest). split; [| apply IH2].
      simpl. reflexivity.
Qed.

Lemma find_Some r s m :
  find r s = Some m -> exists pre post, s = pre +:+ m +:+ post /\ matches r m.
Proof.
  induction s as [|c s IH]; simpl.
  - destruct (run r "") as [|[m' rest] l] eqn:E; [discriminate |].
    intros [= ->]. destruct (run_sound r "" m rest) as [Hs Hm].
    { rewrite E. now left. }
    now exists "", rest.
  - destruct (run r (String c s)) as [|[m' rest] l] eqn:E.
    + intros H. destruct (IH H) as (pre & post & -> & Hm).
      now exists (String c pre), post.
    + intros [= ->]. destruct (run_sound r (String c s) m rest) as [Hs Hm].
      { rewrite E. now left. }
      now exists "", rest.
Qed.

Lemma find_None r s :
  find r s = None ->
  forall pre m post, s = pre +:+ m +:+ post -> ~ matches r m.
Proof.
  induction s as [|c s IH]; simpl.
  - destruct (run r "") as [|[m' rest] l] eqn:E; [| discriminate].
    intros _ pre m post Hs Hm. symmetry in Hs.
    apply append_eq_nil in Hs as [-> Hs]. apply append_eq_nil in Hs as [-> ->].
    pose proof (run_complete r "" Hm "") as Hin. simpl in Hin.
    rewrite E in Hin. contradiction.
  - destruct (run r (String c s)) as [|[m' rest] l] eqn:E; [| discriminate].
    intros H pre m post Hs Hm. destruct pre as [|d pre]; simpl in Hs.
    + pose proof (run_complete r m Hm post) as Hin.
      rewrite <- Hs, E in Hin. contradiction.
    + injection Hs as _ ->. exact (IH H pre m post eq_refl Hm).
Qed.

(** The pattern finds a URL in a line exactly when the line has one. *)
Lemma find_url_spec (line : string) :
  (exists u, find url_pattern line = Some u) <-> has_url line.
Proof.
  split.
  - intros [u H]. apply find_Some in H as (pre & post & -> & Hm).
    now exists pre, u, post.
  - intros (pre & u & post & Hs & Hm).
    destruct (find url_pattern line) as [m|] eqn:E; [now exists m |].
    exfalso. exact (find_None _ _ E pre u post Hs Hm).
Qed.

End RegexpFacts.

(** ** The parsers, line by line *)

Section ParserFacts.

Variables marker issue : string.

Lemma parse_line_acc (results : list VulnerabilityResult) (line : string) :
  parse_line marker issue results line = results ++ parse_line marker issue [] line.
Proof.
  unfold parse_line. destruct (Contains line marker); [| now rewrite app_nil_r].
  destruct (Nat.ltb 1 _); [reflexivity | now rewrite app_nil_r].
Qed.

Lemma parse_lines_concat (lines : list string) (results : list VulnerabilityResult) :
  fold_left (parse_line marker issue) lines results
  = results ++ concat (map (parse_line marker issue []) lines).
Proof.
  revert results. induction lines as [|line lines IH]; intros results; simpl.
  - now rewrite app_nil_r.
  - rewrite IH, parse_line_acc, <- app_assoc. reflexivity.
Qed.

(** A line with the marker and a URL gives one record, with the leftmost
    URL of the line. *)
Lemma parse_line_finding (line : string) :
  has_marker marker line -> has_url line ->
  exists u, find url_pattern line = Some u /\
            parse_line marker issue [] line = [{| URL := u; Issue := issue; Detail := line |}].
Proof.
  intros Hm Hu. apply Contains_spec in Hm. apply find_url_spec in Hu as [u Hu].
  exists u. split; [assumption |].
  unfold parse_line, FindStringSubmatch. rewrite Hm, Hu. reflexivity.
Qed.

(** Any other line gives none. *)
Lemma parse_line_dropped (line : string) :
  ~ (has_marker marker line /\ has_url line) ->
  parse_line marker issue [] line = [].
Proof.
  intros H. unfold parse_line, FindStringSubmatch.
  destruct (Contains line marker) eqn:Hm; [| reflexivity].
  destruct (find url_pattern line) as [u|] eqn:Hu; [| reflexivity].
  exfalso. apply H. split; [now apply Contains_spec |].
  apply find_url_spec. now exists u.
Qed.

Lemma parse_line_cases (line : string) :
  (has_marker marker line /\ has_url line) \/ ~ (has_marker marker line /\ has_url line).
Proof.
  destruct (Contains line marker) eqn:Hm.
  - destruct (find url_pattern line) as [u|] eqn:Hu.
    + left. split; [now apply Contains_spec | apply find_url_spec; now exists u].
    + right. intros [_ Hu']. apply find_url_spec in Hu' as [u Hu']. congruence.
  - right. intros [Hm' _]. apply Contains_spec in Hm'. congruence.
Qed.

End ParserFacts.

(** ** [uniqueStrings] *)

Section UniqueFacts.

Lemma uniqueStrings_step_inv st s :
  unique_inv st -> unique_inv (uniqueStrings_step st s).
Proof.
  destruct st as [seen res]. intros [Hnd Hin].
  unfold uniqueStrings_step, unique_inv. simpl in *.
  destruct (seen !! s) as [[|]|] eqn:E; simpl.
  - split; assumption.
  - split.
    + apply NoDup_app. split; [assumption |]. split; [| apply NoDup_singleton].
      intros x Hx ->%list_elem_of_singleton. apply Hin in Hx. congruence.
    + intros x. rewrite elem_of_app, list_elem_of_singleton, lookup_insert.
      case_decide as Hd; [subst; tauto |]. rewrite Hin. split; [intros [|]; congruence | tauto].
  - split.
    + apply NoDup_app. split; [assumption |]. split; [| apply NoDup_singleton].
      intros x Hx ->%list_elem_of_singleton. apply Hin in Hx. congruence.
    + intros x. rewrite elem_of_app, list_elem_of_singleton, lookup_insert.
      case_decide as Hd; [subst; tauto |]. rewrite Hin. split; [intros [|]; congruence | tauto].
Qed.

Lemma uniqueStrings_fold_inv input st :
  unique_inv st -> unique_inv (fold_left uniqueStrings_step input st).
Proof.
  revert st. induction input as [|s input IH]; intros st H; simpl; [assumption |].
  apply IH, uniqueStrings_step_inv, H.
Qed.

Lemma uniqueStrings_NoDup (input : list string) : NoDup (uniqueStrings input).
Proof.
  apply (uniqueStrings_fold_inv input (∅, [])). split; [constructor |].
  intros x. simpl. rewrite lookup_empty. split; [intros H; inversion H | discriminate].
Qed.

(** Nothing is lost and nothing is invented. *)
Lemma uniqueStrings_step_elem st s x :
  unique_inv st ->
  x ∈ snd (uniqueStrings_step st s) <-> x ∈ snd st \/ x = s.
Proof.
  destruct st as [seen res]. intros [_ Hin]. unfold uniqueStrings_step. simpl in *.
  destruct (seen !! s) as [[|]|] eqn:E; simpl.
  - split; [tauto |]. intros [H| ->]; [assumption | now apply Hin].
  - now rewrite elem_of_app, list_elem_of_singleton.
  - now rewrite elem_of_app, list_elem_of_singleton.
Qed.

Lemma uniqueStrings_fold_elem input st x :
  unique_inv st ->
  x ∈ snd (fold_left uniqueStrings_step input st) <-> x ∈ snd st \/ x ∈ input.
Proof.
  revert st. induction input as [|s input IH]; intros st H; simpl.
  - split; [tauto |]. intros [|Hx]; [assumption | inversion Hx].
  - rewrite IH by now apply uniqueStrings_step_inv.
    rewrite uniqueStrings_step_elem by assumption. rewrite elem_of_cons. tauto.
Qed.

Lemma uniqueStrings_elem (input : list string) (x : string) :
  x ∈ uniqueStrings input <-> x ∈ input.
Proof.
  unfold uniqueStrings. rewrite uniqueStrings_fold_elem.
  - simpl. split; [intros [H|]; [inversion H | assumption] | tauto].
  - split; [constructor |]. intros y. simpl. rewrite lookup_empty.
    split; [intros H; inversion H | discriminate].
Qed.

End UniqueFacts.

(** ** Running a goroutine *)

Local Open Scope go_scope.

Lemma exec_bind {A B} (m : M A) (k : A -> M B) (w : World) :
  exec (bind m k) w = exec (k (eval m w)) (exec m w).
Proof. reflexivity. Qed.

Lemma eval_bind {A B} (m : M A) (k : A -> M B) (w : World) :
  eval (bind m k) w = eval (k (eval m w)) (exec m w).
Proof. reflexivity. Qed.

Lemma exec_forM_app {A} (l1 l2 : list A) (body : A -> M unit) (w : World) :
  exec (forM_ (l1 ++ l2) body) w = exec (forM_ l2 body) (exec (forM_ l1 body) w).
Proof.
  revert w. induction l1 as [|x l1 IH]; intros w; simpl; [reflexivity |].
  rewrite !exec_bind. apply IH.
Qed.

Section Respects.

Variable Q : ScanResult -> ScanResult -> Prop.
Hypothesis Q_refl : forall s, Q s s.
Hypothesis Q_trans : forall s1 s2 s3, Q s1 s2 -> Q s2 s3 -> Q s1 s3.

Lemma extends_refl (w : World) : extends Q w w.
Proof.
  exists []. rewrite app_nil_r. repeat split; [constructor | apply Q_refl].
Qed.

Lemma extends_trans (w1 w2 w3 : World) :
  extends Q w1 w2 -> extends Q w2 w3 -> extends Q w1 w3.
Proof.
  intros (d1 & Ht1 & Hd1 & Hq1) (d2 & Ht2 & Hd2 & Hq2).
  exists (d1 ++ d2). split; [now rewrite Ht2, Ht1, app_assoc |].
  split; [| now apply Q_trans with (scanResult w2)].
  apply Forall_app. split; [assumption |].
  eapply Forall_impl; [exact Hd2 |]. intros e He. simpl in *.
  now apply Q_trans with (scanResult w2).
Qed.

Lemma extends_emit (e : Event) (mu : bool) (s : ScanResult) (w : World) :
  Q (scanResult w) s -> extends Q w (emit e mu s w).
Proof.
  intros H. exists [(e, s)]. repeat split; [| assumption].
  constructor; [assumption | constructor].
Qed.

Lemma extends_files (w : World) (fs : list (string * FileContent)) :
  extends Q w {| scanResult := scanResult w; scanMu := scanMu w; trace := trace w; files := fs |}.
Proof.
  exists []. simpl. rewrite app_nil_r. repeat split; [constructor | apply Q_refl].
Qed.

Lemma respects_ret {A} (a : A) : respects Q (ret a).
Proof. intros w. apply extends_refl. Qed.

Lemma respects_bind {A B} (m : M A) (k : A -> M B) :
  respects Q m -> (forall a, respects Q (k a)) -> respects Q (bind m k).
Proof.
  intros Hm Hk w. rewrite exec_bind.
  eapply extends_trans; [apply Hm | apply Hk].
Qed.

Lemma respects_Lock : respects Q Lock.
Proof. intros w. apply extends_emit, Q_refl. Qed.

Lemma respects_Unlock : respects Q Unlock.
Proof. intros w. apply extends_emit, Q_refl. Qed.

Lemma respects_load {A} (f : Field A) : respects Q (load f).
Proof. intros w. apply extends_emit, Q_refl. Qed.

Lemma respects_store {A} (f : Field A) (v : A) :
  (forall s, Q s (set f v s)) -> respects Q (store f v).
Proof. intros H w. apply extends_emit, H. Qed.

Lemma respects_modify {A} (f : Field A) (g : A -> A) :
  (forall s, Q s (set f (g (get f s)) s)) -> respects Q (modify f g).
Proof.
  intros H w. unfold modify. rewrite exec_bind.
  eapply extends_trans; [apply (respects_load f) |].
  apply extends_emit. apply (H (scanResult w)).
Qed.

Lemma respects_load_all : respects Q load_all.
Proof.
  unfold load_all. repeat (apply respects_bind; [apply respects_load | intros _]).
  intros w. apply extends_refl.
Qed.

Lemma respects_forM_ {A} (l : list A) (body : A -> M unit) :
  (forall x, respects Q (body x)) -> respects Q (forM_ l body).
Proof.
  intros H. induction l as [|x l IH]; simpl; [apply respects_ret |].
  apply respects_bind; [apply H | intros _; exact IH].
Qed.

Lemma respects_when (b : bool) (m : M unit) :
  respects Q m -> respects Q (when b m).
Proof. intros H. destruct b; [exact H | apply respects_ret]. Qed.

Section WithEnv.

Variable env : Env.

Lemma respects_foldM {A B} (body : B -> A -> M B) (l : list A) (acc : B) :
  (forall b x, respects Q (body b x)) -> respects Q (foldM body l acc).
Proof.
  intros H. revert acc. induction l as [|x l IH]; intros acc; simpl; [apply respects_ret |].
  apply respects_bind; [apply H | intros b; apply IH].
Qed.

Lemma respects_write_file (path : string) (c : FileContent) :
  respects Q (write_file env path c).
Proof.
  intros w. unfold exec, write_file. destruct (write_err env path); simpl.
  - apply extends_refl.
  - apply extends_files.
Qed.

Lemma respects_RunCommand (name : string) (args : list string) :
  respects Q (RunCommand env name args).
Proof. intros w. apply extends_emit, Q_refl. Qed.

(** [Q] allows the log to grow. *)
Hypothesis Q_log : forall s line, Q s (set FLogLines (LogLines s ++ [line]) s).

Lemma respects_AppendLog (line : string) : respects Q (AppendLog line).
Proof.
  unfold AppendLog.
  apply respects_bind; [apply respects_Lock | intros _].
  apply respects_bind; [| intros _; apply respects_Unlock].
  apply respects_modify. intros s. apply Q_log.
Qed.

Lemma respects_log_error (prefix : string) (err : option string) :
  respects Q (log_error prefix err).
Proof. destruct err; [apply respects_AppendLog | apply respects_ret]. Qed.

Lemma respects_PersistResults (outDir : string) : respects Q (PersistResults env outDir).
Proof.
  apply respects_bind; [apply respects_load_all | intros s; apply respects_write_file].
Qed.

End WithEnv.

End Respects.

(** The two relations the stages are checked against are preorders that
    let the log grow. *)
Lemma stage_step_refl (s : ScanResult) : stage_step s s.
Proof. repeat split. exists []. now rewrite app_nil_r. Qed.

Lemma stage_step_trans (s1 s2 s3 : ScanResult) :
  stage_step s1 s2 -> stage_step s2 s3 -> stage_step s1 s3.
Proof.
  intros (Hr1 & Hf1 & Hp1 & l1 & Hl1) (Hr2 & Hf2 & Hp2 & l2 & Hl2).
  repeat split; try congruence.
  exists (l1 ++ l2). now rewrite Hl2, Hl1, app_assoc.
Qed.

Lemma stage_step_log (s : ScanResult) (line : string) :
  stage_step s (set FLogLines (LogLines s ++ [line]) s).
Proof. repeat split. now exists [line]. Qed.

Lemma stage_step_set {A} (f : Field A) (v : A) (s : ScanResult) :
  field_name f = NSubdomains \/ field_name f = NVulnURLs \/
  field_name f = NFfufEntries \/ field_name f = NAllURLs ->
  stage_step s (set f v s).
Proof.
  intros H. destruct f; simpl in H;
    try (destruct H as [H|[H|[H|H]]]; discriminate H);
    (repeat split; exists []; simpl; now rewrite app_nil_r).
Qed.

Lemma keeps_refl {A} (f : Field A) (s : ScanResult) : keeps f s s.
Proof. reflexivity. Qed.

Lemma keeps_trans {A} (f : Field A) (s1 s2 s3 : ScanResult) :
  keeps f s1 s2 -> keeps f s2 s3 -> keeps f s1 s3.
Proof. unfold keeps. congruence. Qed.

Lemma keeps_set {A B} (f : Field A) (g : Field B) (v : B) (s : ScanResult) :
  field_name g <> field_name f -> keeps f s (set g v s).
Proof. intros H. destruct f; destruct g; simpl in H; try reflexivity; congruence. Qed.

Lemma log_grows_refl (s : ScanResult) : log_grows s s.
Proof. exists []. now rewrite app_nil_r. Qed.

Lemma log_grows_trans (s1 s2 s3 : ScanResult) :
  log_grows s1 s2 -> log_grows s2 s3 -> log_grows s1 s3.
Proof.
  intros [l1 H1] [l2 H2]. exists (l1 ++ l2). now rewrite H2, H1, app_assoc.
Qed.

Lemma log_grows_log (s : ScanResult) (line : string) :
  log_grows s (set FLogLines (LogLines s ++ [line]) s).
Proof. now exists [line]. Qed.

Lemma log_grows_set {A} (f : Field A) (v : A) (s : ScanResult) :
  field_name f <> NLogLines -> log_grows s (set f v s).
Proof.
  intros H. destruct f; simpl in H; try congruence;
    (exists []; simpl; now rewrite app_nil_r).
Qed.

(** One step of showing that a stage respects a relation: [R], [T] and [L]
    are the relation's reflexivity, transitivity and log lemmas, [side]
    solves what the relation asks of a store. *)
Ltac respects_side R T L side :=
  first [ exact R | exact T | exact L | solve [side] | idtac ].

Ltac respects_step R T L side :=
  intros; cbv beta zeta;
  lazymatch goal with
  | |- respects _ (match ?x with _ => _ end) => destruct x
  | |- respects _ (ret _) => apply respects_ret
  | |- respects _ (bind _ _) => apply respects_bind
  | |- respects _ (AppendLog _) => apply respects_AppendLog
  | |- respects _ (log_error _ _) => apply respects_log_error
  | |- respects _ (RunCommand _ _ _) => apply respects_RunCommand
  | |- respects _ (write_file _ _ _) => apply respects_write_file
  | |- respects _ (WriteLines _ _ _) => apply respects_write_file
  | |- respects _ (PersistResults _ _) => apply respects_PersistResults
  | |- respects _ load_all => apply respects_load_all
  | |- respects _ (load _) => apply respects_load
  | |- respects _ (modify _ _) => apply respects_modify
  | |- respects _ (store _ _) => apply respects_store
  | |- respects _ Lock => apply respects_Lock
  | |- respects _ Unlock => apply respects_Unlock
  | |- respects _ (forM_ _ _) => apply respects_forM_
  | |- respects _ (foldM _ _ _) => apply respects_foldM
  | |- respects _ (when _ _) => apply respects_when
  end;
  respects_side R T L side.

Ltac stage_step_side := intros; apply stage_step_set; simpl; tauto.
Ltac keeps_side := intros; apply keeps_set; discriminate.
Ltac log_grows_side := intros; apply log_grows_set; discriminate.

Ltac respects_stage_step :=
  repeat respects_step stage_step_refl stage_step_trans stage_step_log stage_step_side.

Ltac respects_keeps f :=
  repeat respects_step (keeps_refl f) (keeps_trans f)
    (fun s line => keeps_set f FLogLines (LogLines s ++ [line]) s ltac:(discriminate))
    keeps_side.

Ltac respects_log_grows :=
  repeat respects_step log_grows_refl log_grows_trans log_grows_log log_grows_side.

Section Stages.

Variable env : Env.
Variables target chaosKey outDir : string.

Lemma EnumerateSubdomains_stage_step :
  respects stage_step (EnumerateSubdomains env target chaosKey outDir).
Proof. unfold EnumerateSubdomains. respects_stage_step. Qed.

Lemma CheckLiveHosts_stage_step : respects stage_step (CheckLiveHosts env outDir).
Proof. unfold CheckLiveHosts. respects_stage_step. Qed.

Lemma RunURLScan_stage_step : respects stage_step (RunURLScan env target outDir).
Proof. unfold RunURLScan, collect_urls. respects_stage_step. Qed.

Lemma RunFuzzing_stage_step : respects stage_step (RunFuzzing env target outDir).
Proof. unfold RunFuzzing. respects_stage_step. Qed.

Lemma RunPreVulnTools_stage_step : respects stage_step (RunPreVulnTools env target outDir).
Proof. unfold RunPreVulnTools. respects_stage_step. Qed.

Lemma RunVulnerabilityScans_stage_step :
  respects stage_step (RunVulnerabilityScans env target outDir).
Proof. unfold RunVulnerabilityScans, collect_vulns. respects_stage_step. Qed.

Lemma EnrichWithShodan_stage_step (apiKey : string) :
  respects stage_step (EnrichWithShodan env apiKey outDir).
Proof. unfold EnrichWithShodan. respects_stage_step. Qed.

Lemma run_stages_stage_step : respects stage_step (run_stages env target outDir).
Proof.
  unfold run_stages, EnumerateSubdomains, CheckLiveHosts, RunURLScan, collect_urls,
    RunFuzzing, RunPreVulnTools, RunVulnerabilityScans, collect_vulns, EnrichWithShodan.
  respects_stage_step.
Qed.

(** After the URL scan nothing writes [AllURLs]. *)
Lemma after_urls_keeps :
  respects (keeps FAllURLs)
    (RunFuzzing env target outDir ;;
     RunPreVulnTools env target outDir ;;
     RunVulnerabilityScans env target outDir ;;
     (let key := getenv env "SHODAN_API_KEY" in
      when (negb (String.eqb key "")) (EnrichWithShodan env key outDir)) ;;
     finalize env target outDir).
Proof.
  unfold RunFuzzing, RunPreVulnTools, RunVulnerabilityScans, collect_vulns,
    EnrichWithShodan, finalize.
  respects_keeps FAllURLs.
Qed.

(** The whole goroutine only appends to the log. *)
Lemma scan_goroutine_log_grows :
  respects log_grows (scan_goroutine env target outDir).
Proof.
  unfold scan_goroutine, run_stages, finalize, EnumerateSubdomains, CheckLiveHosts,
    RunURLScan, collect_urls, RunFuzzing, RunPreVulnTools, RunVulnerabilityScans,
    collect_vulns, EnrichWithShodan.
  respects_log_grows.
Qed.

End Stages.

(** ** The commands a goroutine starts *)

Section Starts.

Variable env : Env.


















End Starts.


Section RunFacts.

Variable env : Env.
Variables target outDir : string.


End RunFacts.

(** ** The end of a run *)

Section Finalize.

Variable env : Env.
Variables target outDir : string.

Lemma finalize_exec_trace (w : World) :
  trace (exec (finalize env target outDir) w)
  = trace w ++ finalize_trace (report_text env target) (scanResult w).
Proof.
  unfold finalize, PersistResults, exec, bind, write_file. simpl.
  destruct (write_err env _); simpl; rewrite <- !app_assoc; reflexivity.
Qed.

Lemma finalize_exec_state (w : World) :
  scanResult (exec (finalize env target outDir) w)
  = completed (report_text env target) (scanResult w).
Proof.
  unfold finalize, PersistResults, exec, bind, write_file. simpl.
  destruct (write_err env _); reflexivity.
Qed.

Lemma finalize_trace_events (report : string) (s : ScanResult) :
  map fst (finalize_trace report s) = finalize_events.
Proof. reflexivity. Qed.

Lemma report_text_nonempty : report_text env target <> "".
Proof. unfold report_text. simpl. discriminate. Qed.

Lemma falls_while_true (l1 l2 : list bool) :
  Forall (eq true) l1 -> falls true (l1 ++ l2) = falls true l2.
Proof.
  induction 1 as [|b l1 <- _ IH]; simpl; [reflexivity | exact IH].
Qed.

Lemma free_states_elem (held : bool) (t : list (Event * ScanResult)) (s : ScanResult) :
  s ∈ free_states held t -> s ∈ map snd t.
Proof.
  revert held. induction t as [|[e s'] t IH]; intros held; simpl; [trivial |].
  rewrite elem_of_app, elem_of_cons. intros [H|H].
  - left. destruct (match e with ELock => true | EUnlock => false | _ => held end);
      [inversion H | now apply list_elem_of_singleton in H].
  - right. exact (IH _ H).
Qed.

Lemma free_states_app_Lock (held : bool) (t1 t2 : list (Event * ScanResult)) (s : ScanResult) :
  free_states held (t1 ++ (ELock, s) :: t2) = free_states held t1 ++ free_states true t2.
Proof.
  revert held. induction t1 as [|[e s'] t1 IH]; intros held; simpl; [reflexivity |].
  now rewrite IH, app_assoc.
Qed.

(** The stages leave [Running] set and the report empty, in every state
    they go through. *)
Lemma run_stages_running :
  let w := exec (run_stages env target outDir) initial_world in
  Forall (fun e => Running (snd e) = true) (trace w) /\
  Running (scanResult w) = true.
Proof.
  destruct (run_stages_stage_step env target outDir initial_world)
    as (d & Ht & Hd & Hq).
  simpl in *. rewrite Ht. split; [| apply Hq].
  eapply Forall_impl; [exact Hd |]. intros e He. apply He.
Qed.

Lemma run_scan_trace :
  trace (run_scan env target outDir)
  = trace (exec (run_stages env target outDir) initial_world)
      ++ finalize_trace (report_text env target)
           (scanResult (exec (run_stages env target outDir) initial_world)).
Proof.
  unfold run_scan, scan_goroutine. rewrite exec_bind. apply finalize_exec_trace.
Qed.

Lemma run_scan_state :
  scanResult (run_scan env target outDir)
  = completed (report_text env target)
      (scanResult (exec (run_stages env target outDir) initial_world)).
Proof.
  unfold run_scan, scan_goroutine. rewrite exec_bind. apply finalize_exec_state.
Qed.

Lemma run_scan_falls_once :
  running_falls initial_world (run_scan env target outDir) = 1.
Proof.
  unfold running_falls. rewrite run_scan_trace, map_app.
  destruct run_stages_running as [Hd Hr]. simpl in Hd, Hr.
  change (Running (scanResult initial_world)) with true.
  rewrite falls_while_true.
  - simpl. rewrite Hr. reflexivity.
  - apply Forall_forall. intros b Hb.
    apply list_elem_of_In, in_map_iff in Hb as (e & <- & He).
    apply list_elem_of_In in He. symmetry. revert e He. apply Forall_forall. exact Hd.
Qed.

Lemma run_scan_snapshots :
  Forall report_ready (snapshots initial_world (run_scan env target outDir)).
Proof.
  unfold snapshots. constructor; [now left |].
  rewrite run_scan_trace. unfold finalize_trace. rewrite free_states_app_Lock.
  apply Forall_app. split.
  - apply Forall_forall. intros s Hs. left.
    apply free_states_elem, list_elem_of_In, in_map_iff in Hs as (e & <- & He).
    apply list_elem_of_In in He.
    destruct run_stages_running as [Hd _]. revert e He. apply Forall_forall, Hd.
  - cbv [free_states app].
    repeat (apply List.Forall_cons; [right; apply report_text_nonempty |]).
    apply List.Forall_nil.
Qed.

End Finalize.

(** ** What ends up in the log *)

Section Logged.

Variable env : Env.
Variables target outDir : string.
















End Logged.



(** The error a command answered with, as the stage reads it. *)
Ltac read_error E :=
  match goal with
  | |- context [snd (eval (RunCommand ?env ?name ?args) ?w)] =>
      change (snd (eval (RunCommand env name args) w))
        with (cmd_err (run_command env name args));
      rewrite E
  end.

Section LoggedRun.

Variable env : Env.
Variables target outDir : string.



End LoggedRun.

(** * The claims of the specification *)

(** ** The lock (C1) *)

Lemma guarded_app_Lock (held : bool) (t1 t2 : list Event) :
  guarded held (t1 ++ ELock :: t2) = guarded held t1 && guarded true t2.
Proof.
  revert held. induction t1 as [|e t1 IH]; intros held; simpl; [reflexivity |].
  destruct e; rewrite IH; try reflexivity; now rewrite andb_assoc.
Qed.

(** No run keeps the discipline: the state that is persisted at the end is
    read after the lock has been released. *)
Lemma every_run_reads_unlocked (env : Env) (target outDir : string) :
  lock_discipline (trace (run_scan env target outDir)) = false.
Proof.
  unfold lock_discipline.
  rewrite run_scan_trace, map_app, finalize_trace_events.
  unfold finalize_events. rewrite guarded_app_Lock. apply andb_false_r.
Qed.

(** C1 fails on the code, which takes the lock in [AppendLog], in the
    proxy toggle, when it finalizes the run and around the redraws, but not
    everywhere.  In a run in which assetfinder finds one host, the scanning
    goroutine makes the accesses listed here without holding [scanMu]: the
    appends to [Subdomains] and [VulnURLs], the assignments of [AllURLs] and
    [FfufEntries], the reads of the live-host check and of the two saves.
    The redraw reads [Running] before it takes the lock, and the proxy
    toggle reads [ProxyEnabled] after it has released it.  No run at all
    keeps the discipline. *)
Theorem lock_discipline_broken :
  (forall env target outDir, lock_discipline (trace (run_scan env target outDir)) = false) /\
  unguarded false (map fst (trace (run_scan one_host_env "example.com" "out")))
  = [ERead NSubdomains; EWrite NSubdomains; ERead NSubdomains;
     EWrite NAllURLs; EWrite NFfufEntries;
     ERead NVulnURLs; EWrite NVulnURLs; ERead NVulnURLs; EWrite NVulnURLs;
     ERead NVulnURLs;
     ERead NSubdomains; ERead NVulnURLs; ERead NFfufEntries; ERead NAllURLs;
     ERead NLogLines; ERead NFinalReport; ERead NRunning; ERead NProxyEnabled] /\
  unguarded false (map fst (trace (exec (TUI.updateViews TUI.initial_views) running_world)))
  = [ERead NRunning] /\
  unguarded false (map fst (trace (exec (TUI.toggleProxy TUI.initial_views) running_world)))
  = [ERead NProxyEnabled; ERead NProxyEnabled].
Proof.
  split; [exact every_run_reads_unlocked |].
  repeat split; vm_compute; reflexivity.
Qed.

(** ** The redraw (C2) *)

Section Redraw.

Import TUI.

Lemma Fprint_rows_subdomains (rows : list SubdomainResult) (v : Views) :
  fold_left (fun v sub => to_subdomainsView (Fprint (subdomain_row sub)) v) rows v
  = to_subdomainsView (Fprint (concat_rows subdomain_row rows)) v.
Proof.
  revert v. induction rows as [|x rows IH]; intros v; simpl.
  - destruct v. unfold to_subdomainsView, Fprint. simpl. now rewrite append_nil_r.
  - rewrite IH. destruct v. unfold to_subdomainsView, Fprint. simpl.
    now rewrite append_assoc.
Qed.

Lemma Fprint_rows_vulns (rows : list VulnerabilityResult) (v : Views) :
  fold_left (fun v x => to_vulnsView (Fprint (vuln_row x)) v) rows v
  = to_vulnsView (Fprint (concat_rows vuln_row rows)) v.
Proof.
  revert v. induction rows as [|x rows IH]; intros v; simpl.
  - destruct v. unfold to_vulnsView, Fprint. simpl. now rewrite append_nil_r.
  - rewrite IH. destruct v. unfold to_vulnsView, Fprint. simpl.
    now rewrite append_assoc.
Qed.

Lemma Fprint_rows_ffuf (rows : list FfufResult) (v : Views) :
  fold_left (fun v f => to_ffufView (Fprint (ffuf_row f)) v) rows v
  = to_ffufView (Fprint (concat_rows ffuf_row rows)) v.
Proof.
  revert v. induction rows as [|x rows IH]; intros v; simpl.
  - destruct v. unfold to_ffufView, Fprint. simpl. now rewrite append_nil_r.
  - rewrite IH. destruct v. unfold to_ffufView, Fprint. simpl.
    now rewrite append_assoc.
Qed.

Lemma Fprint_rows_console (rows : list string) (v : Views) :
  fold_left (fun v line => to_consoleView (Fprint (console_row line)) v) rows v
  = to_consoleView (Fprint (concat_rows console_row rows)) v.
Proof.
  revert v. induction rows as [|x rows IH]; intros v; simpl.
  - destruct v. unfold to_consoleView, Fprint. simpl. now rewrite append_nil_r.
  - rewrite IH. destruct v. unfold to_consoleView, Fprint. simpl.
    now rewrite append_assoc.
Qed.

(** A round of the view goroutine redraws the panes when the scan is over
    and does nothing to them while it runs. *)
Lemma updateViews_eval (v : Views) (w : World) :
  eval (updateViews v) w
  = if Running (scanResult w) then v else redrawn (scanResult w) v.
Proof.
  unfold updateViews. rewrite eval_bind. cbv beta.
  change (eval (load FRunning) w) with (Running (scanResult w)).
  destruct (Running (scanResult w)); [reflexivity |].
  cbv zeta.
  change (eval _ _) with
    (to_reportView (SetText (FinalReport (scanResult w)))
       (fold_left (fun v f => to_ffufView (Fprint (ffuf_row f)) v) (FfufEntries (scanResult w))
          (to_ffufView Clear
             (fold_left (fun v x => to_vulnsView (Fprint (vuln_row x)) v) (VulnURLs (scanResult w))
                (to_vulnsView Clear
                   (fold_left (fun v sub => to_subdomainsView (Fprint (subdomain_row sub)) v)
                      (Subdomains (scanResult w))
                      (to_subdomainsView Clear v))))))).
  rewrite Fprint_rows_subdomains, Fprint_rows_vulns, Fprint_rows_ffuf.
  destruct v. reflexivity.
Qed.

Lemma updateConsole_eval (v : Views) (w : World) :
  consoleView (eval (updateConsole v) w)
  = concat_rows console_row (LogLines (scanResult w)).
Proof.
  unfold updateConsole. cbv zeta.
  change (eval _ _) with
    (fold_left (fun v line => to_consoleView (Fprint (console_row line)) v)
       (LogLines (scanResult w)) (to_consoleView Clear v)).
  rewrite Fprint_rows_console. destruct v. reflexivity.
Qed.

Lemma redrawn_shows (s : ScanResult) (v : Views) : shows s (redrawn s v).
Proof. repeat split. Qed.

End Redraw.

(** C2 fails on the code.  The goroutine that is to "periodically update
    the views with scan data" does so only under [if !scanResult.Running]:
    with one subdomain in the store and [Running] set, a round of it
    leaves the panes as [startTUI] built them, the subdomain pane empty,
    and they do not show the store.  The console goroutine beside it has
    no such guard: at the same state a round of it shows the log. *)
Theorem panes_stale_while_running :
  Running (scanResult running_world) = true /\
  Subdomains (scanResult running_world) = [demo_subdomain "a.example.com"] /\
  eval (TUI.updateViews TUI.initial_views) running_world = TUI.initial_views /\
  TUI.subdomainsView (eval (TUI.updateViews TUI.initial_views) running_world) = "" /\
  ~ shows (scanResult running_world)
      (eval (TUI.updateViews TUI.initial_views) running_world) /\
  TUI.consoleView (eval (TUI.updateConsole TUI.initial_views) running_world)
  = "[*] Discovered subdomain: a.example.com" +:+ nl.
Proof.
  split; [reflexivity |]. split; [reflexivity |]. split; [reflexivity |].
  split; [reflexivity |]. split; [| vm_compute; reflexivity].
  intros (H & _). vm_compute in H. discriminate H.
Qed.

(** What a round of each goroutine does, for any views and any state: the
    view goroutine (every two seconds) redraws the subdomain,
    vulnerability, fuzzing and report panes from the store when [Running]
    is false, and then they show the store; the console goroutine (every
    second) redraws the log pane from [LogLines]. *)
Lemma redraw_waits_for_the_scan (v : TUI.Views) (w : World) :
  eval (TUI.updateViews v) w
    = (if Running (scanResult w) then v else redrawn (scanResult w) v) /\
  shows (scanResult w) (redrawn (scanResult w) v) /\
  TUI.frontPage (eval (TUI.updateViews v) w) = TUI.frontPage v /\
  TUI.consoleView (eval (TUI.updateConsole v) w)
    = concat_rows TUI.console_row (LogLines (scanResult w)).
Proof.
  split; [apply updateViews_eval |]. split; [apply redrawn_shows |].
  split; [| apply updateConsole_eval].
  rewrite updateViews_eval. now destruct (Running (scanResult w)).
Qed.

(** ** The fuzzing stage (C3) *)

Section Fuzzing.

Variable env : Env.
Variables target outDir : string.

(** When ffuf succeeds, [RunFuzzing] of backend/main.go stores one fixed
    entry; the output file plays no part. *)
Lemma RunFuzzing_fixed_entry (w : World) :
  cmd_err (run_command env "ffuf" (ffuf_args target outDir)) = None ->
  FfufEntries (scanResult (exec (RunFuzzing env target outDir) w)) = [demo_entry].
Proof.
  intros H. unfold ffuf_args in H. unfold RunFuzzing. cbv zeta.
  rewrite exec_bind. cbv beta. rewrite exec_bind. cbv beta.
  read_error H. reflexivity.
Qed.

(** The variant of the [scanners] package stores what it parses from the
    file. *)
Lemma Scanners_RunFuzzing_parses run readFile unmarshal (result : ScanResult) :
  snd (run "ffuf" (ffuf_args target outDir)) = None ->
  snd (readFile (filepath_Join outDir "ffuf_results.json")) = None ->
  FfufEntries (fst (Scanners.RunFuzzing run readFile unmarshal target outDir result))
  = Scanners.parse_entries unmarshal
      (fst (readFile (filepath_Join outDir "ffuf_results.json"))).
Proof.
  intros Hrun Hread. unfold Scanners.RunFuzzing.
  unfold ffuf_args in Hrun. rewrite Hrun, Hread. reflexivity.
Qed.

End Fuzzing.

(** C3 holds of [RunFuzzing] in the [scanners] package and fails on the
    [RunFuzzing] that [main] runs.  Here ffuf exits without error and its
    output file is empty: the stage of [main] stores the entry "/admin",
    200, 512, where parsing the file, as the variant of the [scanners]
    package does with any JSON decoder, gives no entry. *)
Theorem RunFuzzing_ignores_output :
  cmd_err (run_command quiet_env "ffuf" (ffuf_args "example.com" "out")) = None /\
  read_file quiet_env (filepath_Join "out" "ffuf_results.json") = ("", None) /\
  FfufEntries (scanResult (exec (RunFuzzing quiet_env "example.com" "out") initial_world))
  = [{| Path := "/admin"; Status := 200; Size := 512 |}] /\
  forall unmarshal : string -> option FfufResult,
    FfufEntries
      (fst (Scanners.RunFuzzing
              (fun name args => let r := run_command quiet_env name args in (cmd_out r, cmd_err r))
              (read_file quiet_env) unmarshal "example.com" "out" initial_state))
    = [].
Proof. repeat split. Qed.

(** ** The end of the run (C4) *)

(** C4, as the specification states it, fails on a run in which every tool
    succeeds and prints nothing: the write that clears [Running] is not the
    last write of the run, the log is written after it. *)
Lemma run_not_finalized_last :
  ~ finalized_last initial_world (run_scan quiet_env "example.com" "out").
Proof. intros (_ & H & _). vm_compute in H. discriminate H. Qed.

(** C4 (amended): in every run [Running] goes from true to false exactly
    once; the goroutine ends with the critical section that clears
    [Running] and then writes [FinalReport], followed by the last log line
    and the copy that is persisted, so the last write of the run is the one
    to [LogLines]; and every state another goroutine can find when it takes
    the lock either still has [Running] set or has a non-empty
    [FinalReport]. *)
Theorem run_finalizes_once (env : Env) (target outDir : string) :
  let w := run_scan env target outDir in
  running_falls initial_world w = 1 /\
  (exists before, map fst (trace w) = before ++ finalize_events) /\
  last_write (trace w) = Some (EWrite NLogLines) /\
  Forall report_ready (snapshots initial_world w).
Proof.
  simpl. split; [apply run_scan_falls_once |].
  split; [| split; [| apply run_scan_snapshots]].
  - rewrite run_scan_trace, map_app, finalize_trace_events. eexists. reflexivity.
  - unfold last_write, writes.
    rewrite run_scan_trace, map_app, finalize_trace_events, List.filter_app.
    change (List.filter is_write finalize_events)
      with ([EWrite NRunning; EWrite NFinalReport] ++ [EWrite NLogLines]).
    rewrite app_assoc. apply last_snoc.
Qed.

(** ** Failures of the external tools (C5) *)

(** A failure of sqlmap leaves no line in the log either:
    [RunVulnerabilityScans] has no branch for it. *)
Lemma sqlmap_failure_not_logged :
  cmd_err (run_command sqlmap_fails_env "sqlmap" ["-u"; "example.com"; "--batch"])
    = Some "exit status 1" /\
  failures_logged sqlmap_fails_env (run_scan sqlmap_fails_env "example.com" "out") = false.
Proof. split; vm_compute; reflexivity. Qed.



(** ** The parsers (C6, C7) *)

(** C6, as the specification states it, fails on an output whose first
    line is longer than the scanner's buffer: the scan ends there, and the
    sample line, which is the second line and alone gives the record,
    gives none. *)
Lemma sample_line_after_long_line_lost :
  nth 1 (Split_newline sqlmap_long_output) EmptyString = sqlmap_line /\
  Nat.leb Bufio.MaxScanTokenSize (String.length long_line) = true /\
  ParseSqlmapOutput (sqlmap_line +:+ nl)
  = [{| URL := "http://example.com/page?id=1"; Issue := "SQL Injection";
        Detail := sqlmap_line |}] /\
  ParseSqlmapOutput sqlmap_long_output = [].
Proof. repeat split; vm_compute; reflexivity. Qed.

(** C6 (amended): when the sample line is among the lines the scanner
    delivers from the sqlmap output (the lines of the input up to the
    first one of 64 KiB or more, where the scan ends) and the delivered
    lines around it are no findings (none has both "is vulnerable" and a
    URL), [ParseSqlmapOutput] returns exactly one record, with URL
    "http://example.com/page?id=1" and issue "SQL Injection".  With
    [before] and [after] empty this is the output that consists of the
    single line. *)
Theorem ParseSqlmapOutput_sample_line (output : string) (before after : list string) :
  Bufio.ScanLines output = before ++ sqlmap_line :: after ->
  Forall (fun line => ~ (has_marker "is vulnerable" line /\ has_url line)) (before ++ after) ->
  ParseSqlmapOutput output
  = [{| URL := "http://example.com/page?id=1"; Issue := "SQL Injection";
        Detail := sqlmap_line |}].
Proof.
  intros Hlines Hrest. apply Forall_app in Hrest as [Hb Ha].
  assert (Hnone : forall l, Forall (fun line => ~ (has_marker "is vulnerable" line /\ has_url line)) l ->
                            concat (map (parse_line "is vulnerable" "SQL Injection" []) l) = []).
  { induction 1 as [|line l Hline _ IH]; simpl; [reflexivity |].
    now rewrite parse_line_dropped, IH. }
  unfold ParseSqlmapOutput.
  rewrite Hlines, parse_lines_concat, app_nil_l, map_app, concat_app, map_cons, concat_cons.
  rewrite !Hnone, app_nil_l, app_nil_r by assumption.
  vm_compute. reflexivity.
Qed.

Lemma ParseSqlmapOutput_sample_line_witness :
  let output := "[*] starting" +:+ nl +:+ sqlmap_line +:+ nl +:+ "[*] ending" +:+ nl in
  Bufio.ScanLines output = ["[*] starting"] ++ sqlmap_line :: ["[*] ending"] /\
  ParseSqlmapOutput output
  = [{| URL := "http://example.com/page?id=1"; Issue := "SQL Injection";
        Detail := sqlmap_line |}].
Proof.
  split; [vm_compute; reflexivity |].
  apply (ParseSqlmapOutput_sample_line _ ["[*] starting"] ["[*] ending"]).
  - vm_compute. reflexivity.
  - repeat apply List.Forall_cons; try apply List.Forall_nil;
      intros [Hm _]; apply Contains_spec in Hm; vm_compute in Hm; discriminate Hm.
Defined.

(** The output that is the sample line alone, ended by nothing, by a
    newline, or by a carriage return and a newline. *)
Example ParseSqlmapOutput_single_line :
  let found := [{| URL := "http://example.com/page?id=1"; Issue := "SQL Injection";
                   Detail := sqlmap_line |}] in
  ParseSqlmapOutput sqlmap_line = found /\
  ParseSqlmapOutput (sqlmap_line +:+ nl) = found /\
  ParseSqlmapOutput (sqlmap_line +:+ String carriage_return nl) = found.
Proof. repeat split; vm_compute; reflexivity. Qed.

(** C7, as the specification states it, fails on an output whose first
    line is longer than the scanner's buffer: the scan ends there, and the
    second line, which has the marker and a URL and alone gives a record,
    gives none. *)
Lemma finding_after_long_line_lost :
  nth 1 (Split_newline dalfox_long_output) EmptyString = poc_line /\
  Nat.leb Bufio.MaxScanTokenSize (String.length long_line) = true /\
  has_marker "[POC]" poc_line /\ has_url poc_line /\
  ParseDalfoxOutput (poc_line +:+ nl)
  = [{| URL := "http://example.com/?q=%3Csvg%3E"; Issue := "XSS"; Detail := poc_line |}] /\
  ParseDalfoxOutput dalfox_long_output = [].
Proof.
  split; [vm_compute; reflexivity |]. split; [vm_compute; reflexivity |].
  split; [apply Contains_spec; vm_compute; reflexivity |].
  split; [apply find_url_spec; eexists; vm_compute; reflexivity |].
  split; vm_compute; reflexivity.
Qed.

(** C7 (amended): for every input, the records of [ParseDalfoxOutput] are those of
    the lines the scanner delivers, in order (the lines of the input up to
    the first one of 64 KiB or more, where the scan ends), and each such
    line gives either
    exactly one record, when it contains "[POC]" and a URL of the pattern
    (the record has issue "XSS", the line as detail and the leftmost such
    URL), or no record at all, when it fails either test; a line without
    the marker gives none even if it has a URL.  Nothing else happens to a
    dropped line. *)
Theorem ParseDalfoxOutput_by_line (output : string) :
  exists found : list (list VulnerabilityResult),
    ParseDalfoxOutput output = concat found /\
    Forall2 (fun line records =>
               (has_marker "[POC]" line /\ has_url line /\
                exists u, find url_pattern line = Some u /\ matches url_pattern u /\
                          records = [{| URL := u; Issue := "XSS"; Detail := line |}])
               \/ (~ (has_marker "[POC]" line /\ has_url line) /\ records = []))
            (Bufio.ScanLines output) found.
Proof.
  exists (map (parse_line "[POC]" "XSS" []) (Bufio.ScanLines output)). split.
  - unfold ParseDalfoxOutput. now rewrite parse_lines_concat.
  - induction (Bufio.ScanLines output) as [|line lines IH]; simpl; constructor; [| exact IH].
    destruct (parse_line_cases "[POC]" line) as [[Hm Hu]|Hno].
    + left. destruct (parse_line_finding "[POC]" "XSS" line Hm Hu) as (u & Hfind & Hrec).
      repeat split; try assumption. exists u. repeat split; try assumption.
      apply find_Some in Hfind as (_ & _ & _ & Hmatch). exact Hmatch.
    + right. split; [assumption | now apply parse_line_dropped].
Qed.

(** A line with a URL and no marker, and one with both. *)
Example ParseDalfoxOutput_sample :
  ParseDalfoxOutput ("[I] scanning http://example.com/?q=1" +:+ nl
                     +:+ "[POC][G][GET] http://example.com/?q=%3Csvg%3E" +:+ nl)
  = [{| URL := "http://example.com/?q=%3Csvg%3E"; Issue := "XSS";
        Detail := "[POC][G][GET] http://example.com/?q=%3Csvg%3E" |}].
Proof. vm_compute. reflexivity. Qed.

(** ** The discovered URLs (C8) *)

Section URLs.

Variable env : Env.
Variables target outDir : string.

Lemma keeps_exec {A B} (f : Field A) (m : M B) (w : World) :
  respects (keeps f) m -> get f (scanResult (exec m w)) = get f (scanResult w).
Proof. intros H. destruct (H w) as (_ & _ & _ & Hq). exact Hq. Qed.

Lemma store_then_keeps {A B} (f : Field A) (v : A) (k : unit -> M B) (w : World) :
  (forall a, respects (keeps f) (k a)) ->
  get f (scanResult (exec (bind (store f v) k) w)) = v.
Proof.
  intros Hk. rewrite exec_bind, (keeps_exec f _ _ (Hk _)).
  destruct f; reflexivity.
Qed.

(** What [RunURLScan] leaves in [AllURLs] went through [uniqueStrings]. *)
Lemma RunURLScan_AllURLs (w : World) :
  exists urls, AllURLs (scanResult (exec (RunURLScan env target outDir) w)) = uniqueStrings urls.
Proof.
  unfold RunURLScan. cbv zeta. do 7 (rewrite exec_bind; cbv beta).
  eexists. apply (store_then_keeps FAllURLs).
  intros _. respects_keeps FAllURLs.
Qed.

Lemma later_stages_keep_urls :
  respects (keeps FAllURLs)
    (RunFuzzing env target outDir ;;
     RunPreVulnTools env target outDir ;;
     RunVulnerabilityScans env target outDir ;;
     (let key := getenv env "SHODAN_API_KEY" in
      when (negb (String.eqb key "")) (EnrichWithShodan env key outDir))).
Proof.
  unfold RunFuzzing, RunPreVulnTools, RunVulnerabilityScans, collect_vulns, EnrichWithShodan.
  respects_keeps FAllURLs.
Qed.

Lemma finalize_keeps_urls : respects (keeps FAllURLs) (finalize env target outDir).
Proof. unfold finalize. respects_keeps FAllURLs. Qed.

Lemma run_scan_AllURLs :
  exists urls, AllURLs (scanResult (run_scan env target outDir)) = uniqueStrings urls.
Proof.
  unfold run_scan, scan_goroutine.
  rewrite exec_bind, (keeps_exec FAllURLs _ _ finalize_keeps_urls).
  unfold run_stages. do 3 (rewrite exec_bind; cbv beta).
  rewrite exec_bind, (keeps_exec FAllURLs _ _ later_stages_keep_urls).
  apply RunURLScan_AllURLs.
Qed.

End URLs.

(** C8: whatever the three URL tools print, and in whatever order [range]
    visits the keys of the set, the [AllURLs] that [RunURLScan] writes has
    no duplicate entries, from any state it starts in; and so has the
    [AllURLs] of the finished run. *)
Theorem discoveredURLs_NoDup (env : Env) (target outDir : string) :
  (forall w, NoDup (AllURLs (scanResult (exec (RunURLScan env target outDir) w)))) /\
  NoDup (AllURLs (scanResult (run_scan env target outDir))).
Proof.
  split.
  - intros w. destruct (RunURLScan_AllURLs env target outDir w) as [urls ->].
    apply uniqueStrings_NoDup.
  - destruct (run_scan_AllURLs env target outDir) as [urls ->].
    apply uniqueStrings_NoDup.
Qed.

(** Overlapping output of hakrawler and gau gives three URLs. *)
Example overlapping_urls_merged :
  AllURLs (scanResult (run_scan overlapping_urls_env "example.com" "out"))
  = ["http://a/3"; "http://a/1"; "http://a/2"].
Proof. vm_compute. reflexivity. Qed.

(** ** The proxy toggle (C9) *)

(** The keys 'p' and 'P' run the toggle. *)
Lemma handleKey_toggle (v : TUI.Views) :
  TUI.handleKey "p"%char v = TUI.toggleProxy v /\
  TUI.handleKey "P"%char v = TUI.toggleProxy v.
Proof. split; reflexivity. Qed.

(** One toggle flips the flag and logs its new value. *)
Lemma toggleProxy_state (v : TUI.Views) (w : World) :
  scanResult (exec (TUI.toggleProxy v) w)
  = set FLogLines
      (LogLines (scanResult w)
         ++ ["[*] Proxy enabled: " +:+ fmt_bool (negb (ProxyEnabled (scanResult w)))])
      (set FProxyEnabled (negb (ProxyEnabled (scanResult w))) (scanResult w)).
Proof. reflexivity. Qed.

(** C9: from any state, with any flag and any log, two toggles in a row
    leave [ProxyEnabled] as it was, append exactly two lines to [LogLines],
    the first with the flipped value and the second with the starting one
    (each the value right after its toggle), and change no other field. *)
Theorem toggle_twice (v : TUI.Views) (w : World) :
  let s := scanResult w in
  let s' := scanResult (exec (bind (TUI.toggleProxy v) TUI.toggleProxy) w) in
  ProxyEnabled s' = ProxyEnabled s /\
  LogLines s' = LogLines s ++ ["[*] Proxy enabled: " +:+ fmt_bool (negb (ProxyEnabled s));
                               "[*] Proxy enabled: " +:+ fmt_bool (ProxyEnabled s)] /\
  Subdomains s' = Subdomains s /\
  VulnURLs s' = VulnURLs s /\
  FfufEntries s' = FfufEntries s /\
  AllURLs s' = AllURLs s /\
  FinalReport s' = FinalReport s /\
  Running s' = Running s.
Proof.
  cbv zeta. rewrite exec_bind, !toggleProxy_state.
  destruct (scanResult w) as [subs vulns ffuf urls log report running proxy]. simpl.
  rewrite negb_involutive, <- app_assoc. repeat split.
Qed.

(** ** The subdomain records (C10) *)

Section Subdomains.

Variable env : Env.
Variables target chaosKey outDir : string.

(** The loop of the enumeration stage appends one record per non-empty
    string, each with the fixed address and ports. *)
Lemma enumerate_loop (hosts : list string) (w : World) :
  Subdomains (scanResult (exec
    (forM_ hosts (fun s =>
       if negb (String.eqb s "") then
         modify FSubdomains (fun subs =>
           subs ++ [{| Hostname := s; IP := "192.0.2.1"; Ports := [80%Z; 443%Z] |}]) ;;
         AppendLog ("[*] Discovered subdomain: " +:+ s)
       else ret tt)) w))
  = Subdomains (scanResult w) ++ map demo_subdomain (List.filter nonempty hosts).
Proof.
  revert w. induction hosts as [|s hosts IH]; intros w.
  - simpl. now rewrite app_nil_r.
  - cbn [forM_ List.filter]. rewrite exec_bind, IH. unfold nonempty at 2.
    destruct (negb (String.eqb s "")).
    + transitivity ((Subdomains (scanResult w) ++ [demo_subdomain s])
                      ++ map demo_subdomain (List.filter nonempty hosts));
        [reflexivity | now rewrite <- app_assoc].
    + reflexivity.
Qed.

Lemma Subdomains_keeps_exec {B} (m : M B) (w : World) :
  respects (keeps FSubdomains) m ->
  Subdomains (scanResult (exec m w)) = Subdomains (scanResult w).
Proof. apply (keeps_exec FSubdomains). Qed.

Lemma EnumerateSubdomains_records (w : World) :
  Subdomains (scanResult (exec (EnumerateSubdomains env target chaosKey outDir) w))
  = Subdomains (scanResult w)
      ++ map demo_subdomain
           (List.filter nonempty
              (uniqueStrings
                 (Split_newline (cmd_out (run_command env "assetfinder" [target]))
                  ++ Split_newline
                       (cmd_out (run_command env "amass"
                          ["enum"; "-d"; target; "-passive"; "-norecursive"; "-noalts";
                           "-timeout"; "60"]))))).
Proof.
  unfold EnumerateSubdomains. cbv zeta. do 6 (rewrite exec_bind; cbv beta).
  rewrite Subdomains_keeps_exec by respects_keeps FSubdomains.
  rewrite enumerate_loop. f_equal.
  do 5 (rewrite Subdomains_keeps_exec by respects_keeps FSubdomains).
  reflexivity.
Qed.

End Subdomains.

Section ScannersSubdomains.

Variable run : string -> list string -> string * option string.
Variable unique : list string -> list string.
Variable writeLines : list string -> string -> option string.

Lemma add_subdomain_loop (hosts : list string) (st : ScanResult * list string) :
  Subdomains (fst (fold_left Scanners.add_subdomain hosts st))
  = Subdomains (fst st) ++ map demo_subdomain (List.filter nonempty hosts).
Proof.
  revert st. induction hosts as [|s hosts IH]; intros st; simpl.
  - now rewrite app_nil_r.
  - rewrite IH. unfold Scanners.add_subdomain, nonempty.
    destruct (negb (String.eqb s "")); simpl; [| reflexivity].
    now rewrite <- app_assoc.
Qed.

Lemma Scanners_EnumerateSubdomains_records (target chaosKey outDir : string)
    (result : ScanResult) :
  Subdomains (fst (Scanners.EnumerateSubdomains run unique writeLines
                     target chaosKey outDir result))
  = Subdomains result
      ++ map demo_subdomain
           (List.filter nonempty
              (unique
                 (Split_newline (fst (run "assetfinder" [target]))
                  ++ Split_newline
                       (fst (run "amass"
                          ["enum"; "-d"; target; "-passive"; "-norecursive"; "-noalts";
                           "-timeout"; "60"]))))).
Proof. unfold Scanners.EnumerateSubdomains. cbv zeta. cbn [fst]. apply add_subdomain_loop. Qed.

End ScannersSubdomains.

(** C10: whatever the target and whatever the enumeration tools print,
    what [EnumerateSubdomains] does to [Subdomains] is to append, for some
    list of host names (the non-empty merged lines), one record per name
    with the constant address "192.0.2.1" and the constant ports 80 and
    443; nothing is resolved.  The same holds of the variant in the
    [scanners] package, with any [utils.UniqueStrings]. *)
Theorem EnumerateSubdomains_demo_records :
  (forall (env : Env) (target chaosKey outDir : string) (w : World),
     exists hosts,
       Subdomains (scanResult (exec (EnumerateSubdomains env target chaosKey outDir) w))
       = Subdomains (scanResult w)
           ++ map (fun host => {| Hostname := host; IP := "192.0.2.1"; Ports := [80%Z; 443%Z] |})
                  hosts) /\
  (forall run unique writeLines (target chaosKey outDir : string) (result : ScanResult),
     exists hosts,
       Subdomains (fst (Scanners.EnumerateSubdomains run unique writeLines
                          target chaosKey outDir result))
       = Subdomains result
           ++ map (fun host => {| Hostname := host; IP := "192.0.2.1"; Ports := [80%Z; 443%Z] |})
                  hosts).
Proof.
  split; intros; eexists.
  - apply EnumerateSubdomains_records.
  - apply Scanners_EnumerateSubdomains_records.
Qed.

(** One host found by assetfinder. *)
Example one_host_record :
  Subdomains (scanResult (run_scan one_host_env "example.com" "out"))
  = [{| Hostname := "a.example.com"; IP := "192.0.2.1"; Ports := [80%Z; 443%Z] |}].
Proof. vm_compute. reflexivity. Qed.


(** * Further properties of the code *)

(** ** [uniqueStrings]: order and composition *)

Section UniqueOrder.

Lemma filter_all {A} (P : A -> Prop) `{forall x, Decision (P x)} (l : list A) :
  Forall P l -> filter P l = l.
Proof.
  induction 1 as [|x l Hx _ IH]; [reflexivity |].
  now rewrite filter_cons_True, IH.
Qed.

Lemma filter_same {A} (P Q : A -> Prop) `{forall x, Decision (P x)} `{forall x, Decision (Q x)}
    (l : list A) :
  (forall x, x ∈ l -> (P x <-> Q x)) -> filter P l = filter Q l.
Proof.
  induction l as [|x l IH]; intros Hl; [reflexivity |].
  assert (filter P l = filter Q l) as IH'.
  { apply IH. intros y Hy. apply Hl. now right. }
  destruct (decide (P x)) as [Hp|Hp].
  - rewrite !filter_cons_True, IH'; [reflexivity | | assumption].
    apply Hl; [now left | assumption].
  - rewrite !filter_cons_False, IH'; [reflexivity | | assumption].
    intros Hq. apply Hp, Hl; [now left | assumption].
Qed.

(** The result list of the loop only gets a suffix. *)
Lemma uniqueStrings_fold_res (input : list string) (seen : gmap string bool)
    (res : list string) :
  snd (fold_left uniqueStrings_step input (seen, res))
  = res ++ snd (fold_left uniqueStrings_step input (seen, [])).
Proof.
  revert seen res. induction input as [|s input IH]; intros seen res; simpl.
  - now rewrite app_nil_r.
  - destruct (negb (default false (seen !! s))).
    + rewrite IH, (IH _ ([] ++ [s])). now rewrite <- app_assoc.
    + apply IH.
Qed.

(** What the loop adds is not marked in [seen]. *)
Lemma uniqueStrings_fold_fresh (input : list string) (seen : gmap string bool) (x : string) :
  x ∈ snd (fold_left uniqueStrings_step input (seen, [])) ->
  default false (seen !! x) = false.
Proof.
  revert seen. induction input as [|s input IH]; intros seen; simpl.
  - intros H. inversion H.
  - destruct (default false (seen !! s)) eqn:E; simpl.
    + apply IH.
    + rewrite uniqueStrings_fold_res. intros [H|H]%elem_of_app.
      * apply list_elem_of_singleton in H as ->. exact E.
      * apply IH in H. destruct (decide (s = x)) as [->|Hne]; [exact E |].
        now rewrite lookup_insert_ne in H.
Qed.

(** Marking [x] beforehand takes [x] out of the result and nothing else. *)
Lemma uniqueStrings_fold_marked (input : list string) (seen : gmap string bool) (x : string) :
  default false (seen !! x) = false ->
  snd (fold_left uniqueStrings_step input (<[x := true]> seen, []))
  = filter (fun y => y <> x) (snd (fold_left uniqueStrings_step input (seen, []))).
Proof.
  revert seen. induction input as [|s input IH]; intros seen Hx; simpl; [reflexivity |].
  destruct (decide (s = x)) as [->|Hne].
  - rewrite lookup_insert_eq, Hx. simpl.
    rewrite (uniqueStrings_fold_res input _ ([] ++ [x])). simpl.
    rewrite filter_cons_False by tauto.
    symmetry. apply filter_all, Forall_forall.
    intros y Hy ->. apply uniqueStrings_fold_fresh in Hy.
    now rewrite lookup_insert_eq in Hy.
  - rewrite lookup_insert_ne by congruence.
    destruct (default false (seen !! s)) eqn:E; simpl; [now apply IH |].
    rewrite !(uniqueStrings_fold_res input _ ([] ++ [s])). simpl.
    rewrite filter_cons_True by assumption. f_equal.
    rewrite insert_insert_ne by congruence. apply IH.
    now rewrite lookup_insert_ne.
Qed.

(** An element stays where it first occurs; later copies of it go. *)
Lemma uniqueStrings_cons (x : string) (input : list string) :
  uniqueStrings (x :: input) = x :: filter (fun y => y <> x) (uniqueStrings input).
Proof.
  unfold uniqueStrings. simpl. rewrite lookup_empty. simpl.
  rewrite (uniqueStrings_fold_res input _ [x]). simpl. f_equal.
  apply uniqueStrings_fold_marked. now rewrite lookup_empty.
Qed.

Lemma uniqueStrings_NoDup_id (input : list string) :
  NoDup input -> uniqueStrings input = input.
Proof.
  induction 1 as [|x input Hx _ IH]; [reflexivity |].
  rewrite uniqueStrings_cons, IH. f_equal.
  apply filter_all, Forall_forall. intros y Hy ->. contradiction.
Qed.

End UniqueOrder.

(** X1: [uniqueStrings] neither loses nor invents a string, and keeps the
    strings in the order of the input: its result has the same elements as
    the input and is a sublist of it. *)
Theorem uniqueStrings_same_elements (input : list string) :
  (forall x, x ∈ uniqueStrings input <-> x ∈ input) /\
  uniqueStrings input `sublist_of` input.
Proof.
  split; [intros x; apply uniqueStrings_elem |].
  induction input as [|x input IH]; [reflexivity |].
  rewrite uniqueStrings_cons. apply sublist_skip.
  etransitivity; [apply sublist_filter | exact IH].
Qed.

(** X2: [uniqueStrings] keeps each string where it first occurs.  On two
    lists one after the other, the result is the result for the first list
    followed by the result for the second list without the strings of the
    first: in the merge of two tools' lines those of the first tool come
    first. *)
Theorem uniqueStrings_app (l1 l2 : list string) :
  uniqueStrings (l1 ++ l2)
  = uniqueStrings l1 ++ filter (fun y => y ∉ l1) (uniqueStrings l2).
Proof.
  induction l1 as [|x l1 IH].
  - simpl. symmetry. apply filter_all, Forall_forall. intros y _ Hy. inversion Hy.
  - change ((x :: l1) ++ l2) with (x :: (l1 ++ l2)).
    rewrite !uniqueStrings_cons, IH, filter_app, list_filter_filter. simpl.
    do 2 f_equal. apply filter_same. intros y _.
    rewrite not_elem_of_cons. tauto.
Qed.

(** X3: running [uniqueStrings] on its own result changes nothing. *)
Theorem uniqueStrings_idempotent (input : list string) :
  uniqueStrings (uniqueStrings input) = uniqueStrings input.
Proof. apply uniqueStrings_NoDup_id, uniqueStrings_NoDup. Qed.

(** ** The parsers: what a record says *)

Section ParserRecords.

Variables marker issue : string.

(** The records of the loop, in terms of the lines: their details are
    lines of the input, in order, and each record has the issue of the
    parser, a detail with the marker, and the leftmost URL of its detail. *)
Lemma parse_lines_records (lines : list string) :
  let records := fold_left (parse_line marker issue) lines [] in
  map Detail records `sublist_of` lines /\
  Forall (fun r => Issue r = issue /\ Contains (Detail r) marker = true /\
                   find url_pattern (Detail r) = Some (URL r)) records.
Proof.
  cbv zeta. rewrite parse_lines_concat. simpl.
  induction lines as [|line lines [IHs IHf]]; simpl; [split; constructor |].
  unfold parse_line at 1 3, FindStringSubmatch.
  destruct (Contains line marker) eqn:Hm; [| split; [now apply sublist_cons | assumption]].
  destruct (find url_pattern line) as [u|] eqn:Hu; simpl;
    [| split; [now apply sublist_cons | assumption]].
  split; [now apply sublist_skip |]. now constructor.
Qed.

End ParserRecords.

Section URLShape.

(** The bytes of a string. *)
Lemma list_ascii_of_string_app (a b : string) :
  list_ascii_of_string (a +:+ b) = list_ascii_of_string a ++ list_ascii_of_string b.
Proof. induction a as [|c a IH]; simpl; [reflexivity | now rewrite IH]. Qed.

Lemma matches_PlusClass_bytes (p : ascii -> bool) (s : string) :
  matches (PlusClass p) s ->
  s <> EmptyString /\ forallb p (list_ascii_of_string s) = true.
Proof.
  remember (PlusClass p) as r eqn:Er.
  induction 1 as [| | | q c Hc | q c s Hc Hs IH |]; try discriminate Er;
    injection Er as ->.
  - split; [discriminate |]. simpl. now rewrite Hc.
  - split; [discriminate |]. simpl. rewrite Hc. now apply IH.
Qed.

(** What is in the language of the URL pattern: a scheme, "://", and at
    least one byte, none of them white space. *)
Lemma url_pattern_shape (u : string) :
  matches url_pattern u ->
  exists scheme body,
    u = scheme +:+ "://" +:+ body /\ (scheme = "http" \/ scheme = "https") /\
    body <> EmptyString /\
    forallb (fun c => negb (is_space c)) (list_ascii_of_string u) = true.
Proof.
  unfold url_pattern. intros H.
  inversion H as [| | | | | r1 r2 s1 t1 H1 H2]; subst. clear H.
  inversion H1; subst. clear H1.
  inversion H2 as [| | | | | r1 r2 s2 t2 H3 H4]; subst. clear H2.
  inversion H4 as [| | | | | r1 r2 s3 body H5 H6]; subst. clear H4.
  inversion H5; subst. clear H5.
  apply matches_PlusClass_bytes in H6 as [Hne Hbytes].
  inversion H3 as [| |r s Hs| | |]; subst; [| inversion Hs; subst].
  - exists "http", body. split; [reflexivity |]. split; [now left |].
    split; [assumption |]. simpl. exact Hbytes.
  - exists "https", body. split; [reflexivity |]. split; [now right |].
    split; [assumption |]. simpl. exact Hbytes.
Qed.

(** The first way [PlusClass] matches takes every byte of the class there
    is: what is left is empty or starts outside the class. *)
Lemma run_class_nil (p : ascii -> bool) (s : string) :
  run_class p s = [] ->
  s = EmptyString \/ exists c rest', s = String c rest' /\ p c = false.
Proof.
  destruct s as [|c s]; simpl; [now left |].
  destruct (p c) eqn:Hc.
  - intros H. apply app_eq_nil in H as [_ H]. discriminate H.
  - intros _. right. now exists c, s.
Qed.

Lemma run_class_greedy (p : ascii -> bool) (s m rest : string) (l : list (string * string)) :
  run_class p s = (m, rest) :: l ->
  rest = EmptyString \/ exists c rest', rest = String c rest' /\ p c = false.
Proof.
  revert m rest l. induction s as [|c s IH]; intros m rest l; simpl; [discriminate |].
  destruct (p c) eqn:Hc; [| discriminate].
  destruct (run_class p s) as [|[m' rest'] l'] eqn:E; simpl.
  - intros [= <- <- <-]. now apply run_class_nil.
  - intros [= <- <- <-]. exact (IH _ _ _ eq_refl).
Qed.

Lemma flat_map_head {A B} (f : A -> list B) (l : list A) (x : B) (t : list B) :
  flat_map f l = x :: t -> exists y t', In y l /\ f y = x :: t'.
Proof.
  induction l as [|y l IH]; simpl; [discriminate |].
  destruct (f y) as [|x' t'] eqn:E; simpl.
  - intros H. destruct (IH H) as (z & t'' & Hz & Hf). exists z, t''. auto.
  - intros [= -> <-]. exists y, t'. auto.
Qed.

(** The first way a concatenation matches ends like a first way of its
    second part. *)
Lemma run_Cat_head (r1 r2 : regex) (s m rest : string) (l : list (string * string)) :
  run (Cat r1 r2) s = (m, rest) :: l ->
  exists s1 m2 l2, run r2 s1 = (m2, rest) :: l2.
Proof.
  simpl. intros H. apply flat_map_head in H as ([m1 s1] & t & _ & H). simpl in H.
  destruct (run r2 s1) as [|[m2 rest2] l2] eqn:E; [discriminate |].
  simpl in H. injection H as _ <- _. now exists s1, m2, l2.
Qed.

Lemma find_url_head (line u : string) :
  find url_pattern line = Some u ->
  exists pre rest l, line = pre +:+ u +:+ rest /\
                     run url_pattern (u +:+ rest) = (u, rest) :: l.
Proof.
  induction line as [|c line IH]; cbn [find].
  - destruct (run url_pattern EmptyString) as [|[m rest] l] eqn:E; [discriminate |].
    intros [= ->]. destruct (run_sound url_pattern EmptyString u rest) as [Hs _].
    { rewrite E. now left. }
    exists EmptyString, rest, l. split; [exact Hs | now rewrite <- Hs].
  - destruct (run url_pattern (String c line)) as [|[m rest] l] eqn:E.
    + intros H. destruct (IH H) as (pre & rest & l & -> & Hr).
      now exists (String c pre), rest, l.
    + intros [= ->]. destruct (run_sound url_pattern (String c line) u rest) as [Hs _].
      { rewrite E. now left. }
      exists EmptyString, rest, l. split; [exact Hs | now rewrite <- Hs].
Qed.

(** The URL found in a line runs up to the next white space or to the end
    of the line. *)
Lemma find_url_maximal (line u : string) :
  find url_pattern line = Some u ->
  exists pre rest, line = pre +:+ u +:+ rest /\
    (rest = EmptyString \/ exists c rest', rest = String c rest' /\ is_space c = true).
Proof.
  intros H. apply find_url_head in H as (pre & rest & l & -> & Hr).
  exists pre, rest. split; [reflexivity |].
  unfold url_pattern in Hr.
  apply run_Cat_head in Hr as (s1 & m1 & l1 & Hr).
  apply run_Cat_head in Hr as (s2 & m2 & l2 & Hr).
  apply run_Cat_head in Hr as (s3 & m3 & l3 & Hr).
  simpl in Hr. apply run_class_greedy in Hr as [->|(c & rest' & -> & Hc)]; [now left |].
  right. exists c, rest'. split; [reflexivity |].
  now apply negb_false_iff in Hc.
Qed.

End URLShape.

(** X4: the parsers report no line twice and nothing that is not a
    finding.  The details of the records of [ParseSqlmapOutput] are lines
    the scanner delivered, in the order of the output and each at most once
    (so there are at most as many records as lines); every record has the
    issue "SQL Injection", a detail that contains "is vulnerable", and as
    URL the leftmost match of the URL pattern in its detail.  The same holds
    of [ParseDalfoxOutput] with "XSS" and "[POC]". *)
Theorem parsers_report_findings_only (output : string) :
  (map Detail (ParseSqlmapOutput output) `sublist_of` Bufio.ScanLines output /\
   Forall (fun r => Issue r = "SQL Injection" /\
                    Contains (Detail r) "is vulnerable" = true /\
                    find url_pattern (Detail r) = Some (URL r))
          (ParseSqlmapOutput output)) /\
  (map Detail (ParseDalfoxOutput output) `sublist_of` Bufio.ScanLines output /\
   Forall (fun r => Issue r = "XSS" /\
                    Contains (Detail r) "[POC]" = true /\
                    find url_pattern (Detail r) = Some (URL r))
          (ParseDalfoxOutput output)).
Proof. split; apply parse_lines_records. Qed.

Lemma parsers_find_urls (output : string) :
  Forall (fun r => find url_pattern (Detail r) = Some (URL r))
         (ParseSqlmapOutput output ++ ParseDalfoxOutput output).
Proof.
  apply Forall_app. split;
    (eapply Forall_impl; [apply parse_lines_records |]); intros r (_ & _ & H); exact H.
Qed.

(** X5: every URL the two parsers report starts with "http://" or
    "https://", has at least one byte after that, and contains no white
    space (tab, newline, form feed, carriage return, space). *)
Theorem reported_urls_well_formed (output : string) :
  Forall (fun r => exists scheme body,
            URL r = scheme +:+ "://" +:+ body /\ (scheme = "http" \/ scheme = "https") /\
            body <> EmptyString /\
            forallb (fun c => negb (is_space c)) (list_ascii_of_string (URL r)) = true)
         (ParseSqlmapOutput output ++ ParseDalfoxOutput output).
Proof.
  eapply Forall_impl; [apply parsers_find_urls |]. intros r Hfind. simpl in *.
  apply find_Some in Hfind as (_ & _ & _ & Hm). now apply url_pattern_shape.
Qed.

(** X6: the URL of a record is cut out of its detail line greedily: it is
    followed in the line by white space or by nothing, so a URL is never
    cut short. *)
Theorem reported_urls_maximal (output : string) :
  Forall (fun r => exists pre rest,
            Detail r = pre +:+ URL r +:+ rest /\
            (rest = EmptyString \/
             exists c rest', rest = String c rest' /\ is_space c = true))
         (ParseSqlmapOutput output ++ ParseDalfoxOutput output).
Proof.
  eapply Forall_impl; [apply parsers_find_urls |]. intros r Hfind. simpl in *.
  now apply find_url_maximal.
Qed.

(** ** Files written by [WriteLines], read back by lines *)

Section ScanWritten.

Lemma rev_app_rev_app (l cur acc : string) :
  String.rev_app (String.rev_app l cur) acc = String.rev_app cur (l +:+ acc).
Proof.
  revert cur acc. induction l as [|c l IH]; intros cur acc; simpl; [reflexivity |].
  now rewrite IH.
Qed.

Lemma rev_app_last (l cur : string) (c : ascii) :
  last_byte l = Some c -> exists t, String.rev_app l cur = String c t.
Proof.
  revert cur. induction l as [|d l IH]; intros cur; simpl; [discriminate |].
  destruct l as [|e l].
  - intros [= ->]. now exists cur.
  - intros H. exact (IH _ H).
Qed.

Lemma last_byte_None (l : string) : last_byte l = None -> l = EmptyString.
Proof.
  induction l as [|c l IH]; [reflexivity |]. simpl.
  destruct l as [|d l]; [discriminate |]. intros H. discriminate (IH H).
Qed.

(** [dropCR] gives back a line that does not end in a carriage return. *)
Lemma dropCR_plain (l : string) :
  match last_byte l with
  | Some c => negb (Ascii.eqb c carriage_return)
  | None => true
  end = true ->
  Bufio.dropCR (String.rev_app l EmptyString) = l.
Proof.
  destruct (last_byte l) as [c|] eqn:E.
  - intros Hc. destruct (rev_app_last l EmptyString c E) as [t Ht].
    unfold Bufio.dropCR. rewrite Ht.
    apply negb_true_iff in Hc. rewrite Hc, <- Ht.
    unfold String.rev. rewrite rev_app_rev_app. simpl. apply append_nil_r.
  - intros _. now rewrite (last_byte_None l E).
Qed.

(** Scanning a line that has no newline in it, up to its newline. *)
Lemma scan_line (l cur rest : string) (n : nat) :
  forallb (fun c => negb (Ascii.eqb c newline)) (list_ascii_of_string l) = true ->
  Bufio.scan cur n (l +:+ String newline rest)
  = if Nat.ltb (n + String.length l) Bufio.MaxScanTokenSize
    then Bufio.dropCR (String.rev_app l cur) :: Bufio.scan EmptyString 0 rest
    else [].
Proof.
  revert cur n. induction l as [|c l IH]; intros cur n Hl.
  - cbn [String.append Bufio.scan String.length String.rev_app].
    rewrite Ascii.eqb_refl, Nat.add_0_r. reflexivity.
  - cbn [list_ascii_of_string forallb] in Hl. apply andb_true_iff in Hl as [Hc Hl].
    apply negb_true_iff in Hc.
    cbn [String.append Bufio.scan String.length String.rev_app]. rewrite Hc, IH by assumption.
    now rewrite Nat.add_succ_r.
Qed.

End ScanWritten.

(** X7: what [WriteLines] writes, the scanner reads back.  For lines that
    have no newline in them, do not end in a carriage return and are
    shorter than 64 KiB, scanning the text that [WriteLines] writes (each
    line followed by a newline) delivers exactly these lines, in order. *)
Theorem scan_written_lines (lines : list string) :
  forallb plain_line lines = true ->
  Bufio.ScanLines (WriteLines_text lines) = lines.
Proof.
  unfold Bufio.ScanLines. induction lines as [|l lines IH]; intros H; [reflexivity |].
  cbn [forallb] in H. apply andb_true_iff in H as [Hl H].
  unfold plain_line in Hl. apply andb_true_iff in Hl as [Hl Hlen].
  apply andb_true_iff in Hl as [Hnl Hcr].
  cbn [WriteLines_text fold_right]. unfold nl at 1.
  change (l +:+ String newline EmptyString +:+ ?t) with (l +:+ String newline t).
  rewrite scan_line by assumption. cbn [Nat.add]. rewrite Hlen.
  rewrite dropCR_plain by assumption. f_equal. now apply IH.
Qed.

Lemma scan_written_lines_witness :
  forallb plain_line ["a.example.com"; EmptyString; "b.example.com"] = true /\
  Bufio.ScanLines (WriteLines_text ["a.example.com"; EmptyString; "b.example.com"])
  = ["a.example.com"; EmptyString; "b.example.com"].
Proof.
  split; [vm_compute; reflexivity |].
  apply (scan_written_lines ["a.example.com"; EmptyString; "b.example.com"]).
  vm_compute. reflexivity.
Defined.

(** ** What the stages leave in the store *)

Section StageResults.

Variable env : Env.
Variables target chaosKey outDir : string.

Lemma List_filter_sublist {A} (f : A -> bool) (l : list A) :
  List.filter f l `sublist_of` l.
Proof.
  induction l as [|x l IH]; simpl; [constructor |].
  destruct (f x); [now apply sublist_skip | now apply sublist_cons].
Qed.

Lemma List_filter_elem {A} (f : A -> bool) (l : list A) (x : A) :
  x ∈ List.filter f l <-> x ∈ l /\ f x = true.
Proof. rewrite !list_elem_of_In. apply filter_In. Qed.

Lemma nonempty_spec (s : string) : nonempty s = true <-> s <> EmptyString.
Proof.
  unfold nonempty. rewrite negb_true_iff. split.
  - intros H ->. discriminate H.
  - intros H. apply String.eqb_neq. exact H.
Qed.

Lemma set_get_id {A} (f : Field A) (s : ScanResult) : set f (get f s) s = s.
Proof. destruct f; destruct s; reflexivity. Qed.

Lemma scanResult_AppendLog (line : string) (w : World) :
  scanResult (exec (AppendLog line) w)
  = set FLogLines (LogLines (scanResult w) ++ [line]) (scanResult w).
Proof. reflexivity. Qed.

Lemma exec_ret {A} (a : A) (w : World) : exec (ret a) w = w.
Proof. reflexivity. Qed.

Lemma files_AppendLog (line : string) (w : World) :
  files (exec (AppendLog line) w) = files w.
Proof. reflexivity. Qed.

Lemma files_RunCommand (name : string) (args : list string) (w : World) :
  files (exec (RunCommand env name args) w) = files w.
Proof. reflexivity. Qed.

Lemma eval_load {A} (f : Field A) (w : World) : eval (load f) w = get f (scanResult w).
Proof. reflexivity. Qed.

Lemma scanResult_load {A} (f : Field A) (w : World) :
  scanResult (exec (load f) w) = scanResult w.
Proof. reflexivity. Qed.

Lemma files_load {A} (f : Field A) (w : World) : files (exec (load f) w) = files w.
Proof. reflexivity. Qed.

Lemma files_store {A} (f : Field A) (v : A) (w : World) :
  files (exec (store f v) w) = files w.
Proof. reflexivity. Qed.

Lemma scanResult_RunCommand (name : string) (args : list string) (w : World) :
  scanResult (exec (RunCommand env name args) w) = scanResult w.
Proof. reflexivity. Qed.

Lemma eval_RunCommand (name : string) (args : list string) (w : World) :
  eval (RunCommand env name args) w
  = (cmd_out (run_command env name args), cmd_err (run_command env name args)).
Proof. reflexivity. Qed.

Lemma scanResult_write_file (path : string) (c : FileContent) (w : World) :
  scanResult (exec (write_file env path c) w) = scanResult w.
Proof. unfold exec, write_file. now destruct (write_err env path). Qed.

Lemma scanResult_log_error (prefix : string) (err : option string) (w : World) :
  scanResult (exec (log_error prefix err) w)
  = set FLogLines
      (LogLines (scanResult w)
         ++ match err with Some e => [prefix +:+ e] | None => [] end)
      (scanResult w).
Proof.
  destruct err; [reflexivity |].
  rewrite app_nil_r. symmetry. apply (set_get_id FLogLines).
Qed.

(** The loop of [EnumerateSubdomains], on the whole state. *)
Lemma enumerate_loop_state (hosts : list string) (w : World) :
  scanResult (exec
    (forM_ hosts (fun s =>
       if negb (String.eqb s EmptyString) then
         modify FSubdomains (fun subs =>
           subs ++ [{| Hostname := s; IP := "192.0.2.1"; Ports := [80%Z; 443%Z] |}]) ;;
         AppendLog ("[*] Discovered subdomain: " +:+ s)
       else ret tt)) w)
  = set FLogLines
      (LogLines (scanResult w)
         ++ map (fun h => "[*] Discovered subdomain: " +:+ h) (List.filter nonempty hosts))
      (set FSubdomains
         (Subdomains (scanResult w) ++ map demo_subdomain (List.filter nonempty hosts))
         (scanResult w)).
Proof.
  revert w. induction hosts as [|s hosts IH]; intros w.
  - cbn [forM_ List.filter map]. rewrite !app_nil_r.
    change (scanResult (exec (ret tt) w)) with (scanResult w).
    now rewrite (set_get_id FSubdomains), (set_get_id FLogLines).
  - cbn [forM_ List.filter]. rewrite exec_bind, IH.
    change (nonempty s) with (negb (String.eqb s EmptyString)).
    destruct (negb (String.eqb s EmptyString)).
    + change (scanResult (exec _ w)) with
        (set FLogLines (LogLines (scanResult w) ++ ["[*] Discovered subdomain: " +:+ s])
           (set FSubdomains (Subdomains (scanResult w) ++ [demo_subdomain s]) (scanResult w))).
      destruct (scanResult w) as [subs vulns ffuf urls log report running proxy].
      cbn [set get LogLines Subdomains map]. rewrite <- !app_assoc. reflexivity.
    + reflexivity.
Qed.

End StageResults.

(** X8: the host names [EnumerateSubdomains] adds in one call are the
    non-empty lines of the output of assetfinder and amass, each once and in
    the order of their first occurrence, assetfinder's first.  The output
    of a tool that failed is merged like any other. *)
Theorem EnumerateSubdomains_hosts (env : Env) (target chaosKey outDir : string) (w : World) :
  exists hosts,
    Subdomains (scanResult (exec (EnumerateSubdomains env target chaosKey outDir) w))
    = Subdomains (scanResult w) ++ map demo_subdomain hosts /\
    NoDup hosts /\
    hosts `sublist_of` uniqueStrings (enumerated_lines env target) /\
    forall h, h ∈ hosts <-> h <> EmptyString /\ h ∈ enumerated_lines env target.
Proof.
  exists (List.filter nonempty (uniqueStrings (enumerated_lines env target))).
  split; [apply EnumerateSubdomains_records |].
  split; [| split; [apply List_filter_sublist |]].
  - eapply sublist_NoDup; [apply uniqueStrings_NoDup | apply List_filter_sublist].
  - intros h. rewrite List_filter_elem, uniqueStrings_elem, nonempty_spec. tauto.
Qed.

(** X9: [EnumerateSubdomains] changes [Subdomains] and [LogLines] and no
    other field.  To the log it adds its first line, an error line for
    assetfinder and one for amass if they failed, and then one line
    "[*] Discovered subdomain: ..." per record it adds, in the same
    order. *)
Theorem EnumerateSubdomains_state (env : Env) (target chaosKey outDir : string) (w : World) :
  let hosts := List.filter nonempty (uniqueStrings (enumerated_lines env target)) in
  scanResult (exec (EnumerateSubdomains env target chaosKey outDir) w)
  = set FLogLines
      (LogLines (scanResult w)
         ++ ["[*] Starting subdomain enumeration..."]
         ++ error_line env "[!] assetfinder error: " "assetfinder" [target]
         ++ error_line env "[!] amass error: " "amass" (amass_args target)
         ++ map (fun h => "[*] Discovered subdomain: " +:+ h) hosts)
      (set FSubdomains (Subdomains (scanResult w) ++ map demo_subdomain hosts)
         (scanResult w)).
Proof.
  cbv zeta. unfold EnumerateSubdomains. cbv zeta. do 6 (rewrite exec_bind; cbv beta).
  rewrite exec_bind. rewrite exec_ret.
  unfold WriteLines. rewrite scanResult_write_file, enumerate_loop_state.
  repeat first [ rewrite scanResult_log_error | rewrite scanResult_RunCommand
               | rewrite scanResult_AppendLog ].
  rewrite !eval_RunCommand. cbn [fst snd]. unfold error_line, enumerated_lines, amass_args.
  destruct (scanResult w) as [subs vulns ffuf urls log report running proxy].
  cbn [set get LogLines Subdomains]. f_equal.
  generalize (map (fun h => "[*] Discovered subdomain: " +:+ h)
                (List.filter nonempty
                   (uniqueStrings
                      (Split_newline (cmd_out (run_command env "assetfinder" [target]))
                       ++ Split_newline (cmd_out (run_command env "amass"
                            ["enum"; "-d"; target; "-passive"; "-norecursive"; "-noalts";
                             "-timeout"; "60"])))))).
  intros added. destruct (cmd_err _), (cmd_err _); cbn [app]; now rewrite <- ?app_assoc.
Qed.

Section MoreStageResults.

Variable env : Env.
Variables target outDir : string.

Lemma files_write_file (path : string) (c : FileContent) (w : World) :
  files (exec (write_file env path c) w) = written env path c (files w).
Proof. unfold exec, write_file, written. now destruct (write_err env path). Qed.

(** The loop of [CheckLiveHosts]. *)
Lemma live_loop (subs : list SubdomainResult) (acc : list string) (w : World) :
  let m := foldM (fun live s =>
                    if isHostAlive env (Hostname s) then
                      AppendLog ("[*] Live: " +:+ Hostname s) ;;
                      ret (live ++ [Hostname s])
                    else ret live) subs acc in
  scanResult (exec m w)
  = set FLogLines
      (LogLines (scanResult w) ++ map (fun h => "[*] Live: " +:+ h) (live_hosts env subs))
      (scanResult w) /\
  eval m w = acc ++ live_hosts env subs /\
  files (exec m w) = files w.
Proof.
  cbv zeta. revert acc w. induction subs as [|s subs IH]; intros acc w.
  - cbn [foldM live_hosts map List.filter]. rewrite !app_nil_r.
    split; [symmetry; apply (set_get_id FLogLines) | split; reflexivity].
  - cbn [foldM]. rewrite exec_bind, eval_bind.
    destruct (IH (eval (if isHostAlive env (Hostname s)
                        then AppendLog ("[*] Live: " +:+ Hostname s) ;; ret (acc ++ [Hostname s])
                        else ret acc) w)
                 (exec (if isHostAlive env (Hostname s)
                        then AppendLog ("[*] Live: " +:+ Hostname s) ;; ret (acc ++ [Hostname s])
                        else ret acc) w)) as (Hs & He & Hf).
    rewrite Hs, He, Hf. unfold live_hosts. cbn [map List.filter].
    destruct (isHostAlive env (Hostname s)).
    + split; [| split; [| reflexivity]].
      * change (scanResult (exec _ w)) with
          (set FLogLines (LogLines (scanResult w) ++ ["[*] Live: " +:+ Hostname s])
             (scanResult w)).
        destruct (scanResult w) as [sd vulns ffuf urls log report running proxy].
        cbn [set get LogLines map]. rewrite <- !app_assoc. reflexivity.
      * change (eval _ w) with (acc ++ [Hostname s]). now rewrite <- app_assoc.
    + split; [reflexivity | split; reflexivity].
Qed.

Lemma scanResult_collect_vulns (parse : string -> list VulnerabilityResult)
    (name : string) (args : list string) (w w' : World) :
  scanResult (exec (collect_vulns parse (eval (RunCommand env name args) w')) w)
  = set FVulnURLs
      (VulnURLs (scanResult w) ++ findings_of parse (run_command env name args))
      (scanResult w).
Proof.
  unfold collect_vulns, findings_of. rewrite eval_RunCommand. cbn [fst snd].
  destruct (cmd_err (run_command env name args)); [| reflexivity].
  rewrite app_nil_r. symmetry. apply (set_get_id FVulnURLs).
Qed.

End MoreStageResults.

(** X10: [CheckLiveHosts] changes nothing in the store but the log: it
    adds its first line and then one line "[*] Live: ..." for every
    subdomain whose host name resolves, in the order of [Subdomains] (a
    host that is there twice is checked and logged twice).  The same names
    go to live_hosts.txt, if the file can be written. *)
Theorem CheckLiveHosts_state (env : Env) (outDir : string) (w : World) :
  let live := live_hosts env (Subdomains (scanResult w)) in
  scanResult (exec (CheckLiveHosts env outDir) w)
  = set FLogLines
      (LogLines (scanResult w)
         ++ "[*] Checking live hosts..." :: map (fun h => "[*] Live: " +:+ h) live)
      (scanResult w) /\
  files (exec (CheckLiveHosts env outDir) w)
  = written env (filepath_Join outDir "live_hosts.txt") (TextLines live) (files w).
Proof.
  cbv zeta. unfold CheckLiveHosts. do 3 (rewrite exec_bind; cbv beta).
  rewrite exec_bind. rewrite exec_ret.
  unfold WriteLines. rewrite scanResult_write_file, files_write_file.
  match goal with
  | |- context [exec (foldM ?body ?subs ?acc) ?w0] =>
      destruct (live_loop env subs acc w0) as (Hs & He & Hf)
  end.
  rewrite Hs, He, Hf. clear Hs He Hf.
  rewrite eval_load.
  rewrite scanResult_load.
  rewrite files_load.
  rewrite scanResult_AppendLog.
  rewrite ?files_AppendLog.
  split; [| reflexivity].
  destruct (scanResult w) as [sd vulns ffuf urls log report running proxy].
  cbn [set get LogLines Subdomains]. rewrite <- !app_assoc. reflexivity.
Qed.

(** X11: [RunVulnerabilityScans] appends to [VulnURLs] what
    [ParseSqlmapOutput] finds in the output of sqlmap and then what
    [ParseDalfoxOutput] finds in the output of dalfox; the output of a tool
    that failed is not parsed and adds nothing.  It adds two lines to the
    log, touches no other field, and writes all of [VulnURLs], the earlier
    entries included, to vulnerabilities.json, if the file can be
    written. *)
Theorem RunVulnerabilityScans_state (env : Env) (target outDir : string) (w : World) :
  let found :=
    VulnURLs (scanResult w)
      ++ findings_of ParseSqlmapOutput (run_command env "sqlmap" ["-u"; target; "--batch"])
      ++ findings_of ParseDalfoxOutput (run_command env "dalfox" ["url"; target]) in
  scanResult (exec (RunVulnerabilityScans env target outDir) w)
  = set FLogLines
      (LogLines (scanResult w)
         ++ ["[*] Starting vulnerability scanning..."; "[*] Vulnerability scanning complete."])
      (set FVulnURLs found (scanResult w)) /\
  files (exec (RunVulnerabilityScans env target outDir) w)
  = written env (filepath_Join outDir "vulnerabilities.json") (JsonVulnerabilities found)
      (files w).
Proof.
  cbv zeta. unfold RunVulnerabilityScans. cbv zeta. do 7 (rewrite exec_bind; cbv beta).
  rewrite exec_bind. rewrite exec_ret.
  rewrite scanResult_write_file, files_write_file.
  rewrite eval_load.
  rewrite scanResult_load.
  rewrite files_load.
  rewrite scanResult_AppendLog.
  rewrite ?files_AppendLog.
  rewrite !scanResult_collect_vulns, !scanResult_RunCommand, !scanResult_collect_vulns,
    !scanResult_RunCommand, scanResult_AppendLog.
  assert (Hfiles : forall parse r x, files (exec (collect_vulns parse r) x) = files x).
  { intros parse r x. unfold collect_vulns. now destruct (snd r). }
  rewrite !Hfiles.
  rewrite ?files_RunCommand. rewrite !Hfiles.
  rewrite ?files_RunCommand.
  rewrite ?files_AppendLog.
  destruct (scanResult w) as [sd vulns ffuf urls log report running proxy].
  cbn [set get LogLines VulnURLs]. rewrite <- !app_assoc. split; reflexivity.
Qed.

(** What [RunFuzzing] of backend/main.go does to the store.  When
    ffuf fails, [FfufEntries] stays as it was and the log gets the first
    line and the error line; the stage stops there.  When ffuf succeeds,
    [FfufEntries] is replaced, not extended: entries of an earlier call are
    gone.  No other field changes. *)
Lemma RunFuzzing_state (env : Env) (target outDir : string) (w : World) :
  scanResult (exec (RunFuzzing env target outDir) w)
  = match cmd_err (run_command env "ffuf" (ffuf_args target outDir)) with
    | Some e =>
        set FLogLines
          (LogLines (scanResult w) ++ ["[*] Running ffuf fuzzing..."; "[!] ffuf error: " +:+ e])
          (scanResult w)
    | None =>
        set FLogLines
          (LogLines (scanResult w)
             ++ ["[*] Running ffuf fuzzing..."; "[*] ffuf fuzzing completed."])
          (set FFfufEntries [demo_entry] (scanResult w))
    end.
Proof.
  unfold RunFuzzing. cbv zeta. do 2 (rewrite exec_bind; cbv beta).
  rewrite eval_RunCommand. cbn [snd]. unfold ffuf_args.
  destruct (cmd_err (run_command env "ffuf" _)) as [e|].
  - rewrite scanResult_AppendLog, scanResult_RunCommand, scanResult_AppendLog.
    destruct (scanResult w) as [sd vulns ffuf urls log report running proxy].
    cbn [set get LogLines]. rewrite <- !app_assoc. reflexivity.
  - rewrite exec_bind, scanResult_AppendLog.
    change (scanResult (exec (store FFfufEntries ?v) ?x)) with (set FFfufEntries v (scanResult x)).
    rewrite scanResult_RunCommand, scanResult_AppendLog.
    destruct (scanResult w) as [sd vulns ffuf urls log report running proxy].
    cbn [set get LogLines]. rewrite <- !app_assoc. reflexivity.
Qed.

(** ** The URL scan: what is in [AllURLs] *)

Section URLSet.

Variable env : Env.
Variables target outDir : string.

Lemma add_lines_elem (out : string) (urlSet : gset string) (x : string) :
  x ∈ add_lines out urlSet <->
  x ∈ urlSet \/ (x <> EmptyString /\ x ∈ Bufio.ScanLines out).
Proof.
  unfold add_lines. revert urlSet.
  induction (Bufio.ScanLines out) as [|line lines IH]; intros urlSet; simpl.
  - split; [tauto |]. intros [H|[_ H]]; [assumption | inversion H].
  - rewrite IH, elem_of_cons. destruct (String.eqb_spec line EmptyString) as [->|Hne]; simpl.
    + split; [tauto |]. intros [H|[Hx [->|H]]]; tauto.
    + rewrite elem_of_union, elem_of_singleton. split.
      * intros [[->|H]|[Hx H]]; tauto.
      * intros [H|[Hx [->|H]]]; tauto.
Qed.

Lemma eval_collect_urls (prefix name : string) (args : list string)
    (urlSet : gset string) (w w' : World) (x : string) :
  x ∈ eval (collect_urls prefix (eval (RunCommand env name args) w') urlSet) w <->
  x ∈ urlSet \/ (x <> EmptyString /\ x ∈ delivered_lines (run_command env name args)).
Proof.
  unfold collect_urls, delivered_lines. rewrite eval_RunCommand. cbn [fst snd].
  destruct (cmd_err (run_command env name args)).
  - change (eval (_ ;; ret urlSet) w) with urlSet.
    split; [tauto |]. intros [H|[_ H]]; [assumption | inversion H].
  - change (eval (ret ?s) w) with s. apply add_lines_elem.
Qed.

End URLSet.

(** X12: when [range] visits exactly the keys of the map, each at least
    once, [RunURLScan] leaves in [AllURLs] exactly the non-empty lines the
    scanner delivers from the output of the URL tools that succeeded.  An
    empty line is never a URL, and the output of a tool that failed
    contributes nothing, whatever it printed. *)
Theorem RunURLScan_urls (env : Env) (target outDir : string) (w : World) :
  (forall (keys : gset string) (x : string), x ∈ range_keys env keys <-> x ∈ keys) ->
  forall x,
    x ∈ AllURLs (scanResult (exec (RunURLScan env target outDir) w)) <->
    x <> EmptyString /\ x ∈ url_tool_lines env target.
Proof.
  intros Hrange x. unfold RunURLScan. cbv zeta. do 7 (rewrite exec_bind; cbv beta).
  rewrite (store_then_keeps FAllURLs) by (intros _; respects_keeps FAllURLs).
  rewrite uniqueStrings_elem, Hrange, !eval_collect_urls.
  unfold url_tool_lines. rewrite !elem_of_app, elem_of_empty. tauto.
Qed.

Lemma RunURLScan_urls_witness :
  (forall (keys : gset string) (x : string),
     x ∈ range_keys overlapping_urls_env keys <-> x ∈ keys) /\
  ("http://a/3" ∈ AllURLs (scanResult (exec (RunURLScan overlapping_urls_env "example.com" "out")
                                         initial_world)) <->
   "http://a/3" <> EmptyString /\ "http://a/3" ∈ url_tool_lines overlapping_urls_env "example.com").
Proof.
  assert (H : forall (keys : gset string) (x : string),
             x ∈ range_keys overlapping_urls_env keys <-> x ∈ keys).
  { intros keys x. apply elem_of_elements. }
  split; [exact H |].
  apply (RunURLScan_urls overlapping_urls_env "example.com" "out" initial_world H).
Defined.

Section URLReport.

Variable env : Env.
Variables target outDir : string.

Lemma files_collect_urls (prefix : string) (r : string * option string)
    (urlSet : gset string) (w : World) :
  files (exec (collect_urls prefix r urlSet) w) = files w.
Proof. unfold collect_urls. now destruct (snd r). Qed.

End URLReport.

(** X13: the number [RunURLScan] logs is the number of URLs it stored: its
    last log line is "[*] URL scan complete, found N URLs" with N the
    length of [AllURLs], and the list written to urls.txt, if the file can
    be written, is [AllURLs]. *)
Theorem RunURLScan_report (env : Env) (target outDir : string) (w : World) :
  let w' := exec (RunURLScan env target outDir) w in
  last (LogLines (scanResult w'))
  = Some ("[*] URL scan complete, found "
            +:+ fmt_int (Z.of_nat (length (AllURLs (scanResult w')))) +:+ " URLs") /\
  files w' = written env (filepath_Join outDir "urls.txt")
               (TextLines (AllURLs (scanResult w'))) (files w).
Proof.
  cbv zeta. unfold RunURLScan. cbv zeta. do 7 (rewrite exec_bind; cbv beta).
  rewrite (store_then_keeps FAllURLs) by (intros _; respects_keeps FAllURLs).
  do 2 (rewrite exec_bind; cbv beta). unfold WriteLines. split.
  - rewrite scanResult_AppendLog. apply last_snoc.
  - rewrite ?files_AppendLog.
    rewrite files_write_file.
    rewrite files_store.
    repeat first [ rewrite files_collect_urls
                 | rewrite files_RunCommand
                 | rewrite files_AppendLog ].
    reflexivity.
Qed.

(** ** Enrichment and the summary *)

Section Enrichment.

Variable env : Env.
Variables apiKey outDir : string.

(** The loop of [EnrichWithShodan]. *)
Lemma shodan_loop (ips : list string) (acc : list (list (string * string))) (w : World) :
  let m := foldM (fun allData ip =>
                    match ShodanLookup env ip apiKey with
                    | (Some data, None) =>
                        AppendLog ("[*] Shodan for " +:+ ip +:+ ": " +:+ fmt_entry "ports" data) ;;
                        ret (allData ++ [data])
                    | _ => ret allData
                    end) ips acc in
  scanResult (exec m w)
  = set FLogLines
      (LogLines (scanResult w) ++ map shodan_line (shodan_hits env apiKey ips))
      (scanResult w) /\
  eval m w = acc ++ map snd (shodan_hits env apiKey ips) /\
  files (exec m w) = files w.
Proof.
  cbv zeta. revert acc w. induction ips as [|ip ips IH]; intros acc w.
  - cbn [foldM shodan_hits flat_map map]. rewrite !app_nil_r.
    split; [symmetry; apply (set_get_id FLogLines) | split; reflexivity].
  - cbn [foldM]. rewrite exec_bind, eval_bind. unfold shodan_hits. cbn [flat_map].
    fold (shodan_hits env apiKey ips).
    destruct (ShodanLookup env ip apiKey) as [[data|] [e|]];
      match goal with
      | |- context [foldM ?body ips ?a] =>
          match goal with
          | |- context [exec (foldM body ips a) ?x] =>
              destruct (IH a x) as (Hs & He & Hf)
          end
      end; rewrite Hs, He, Hf; clear Hs He Hf;
      try (split; [reflexivity | split; reflexivity]).
    split; [| split; [| reflexivity]].
    + change (scanResult (exec _ w)) with
        (set FLogLines (LogLines (scanResult w) ++ [shodan_line (ip, data)]) (scanResult w)).
      destruct (scanResult w) as [sd vulns ffuf urls log report running proxy].
      cbn [set get LogLines map app]. rewrite <- !app_assoc. reflexivity.
    + change (eval _ w) with (acc ++ [data]). cbn [map app snd]. now rewrite <- app_assoc.
Qed.

End Enrichment.

(** X14: [EnrichWithShodan] changes nothing in the store but the log.  It
    looks up each IPv4 address of the subdomains that resolve once, logs
    its first line, one line "[*] Shodan for ..." per lookup that gave
    data (a lookup that failed is passed over in silence), and its last
    line; the data of these lookups goes to enrichment.json, if the file
    can be written. *)
Theorem EnrichWithShodan_state (env : Env) (apiKey outDir : string) (w : World) :
  let hits := shodan_hits env apiKey (enrichment_ips env (Subdomains (scanResult w))) in
  scanResult (exec (EnrichWithShodan env apiKey outDir) w)
  = set FLogLines
      (LogLines (scanResult w)
         ++ ["[*] Starting Shodan enrichment..."]
         ++ map shodan_line hits
         ++ ["[*] Shodan enrichment complete."])
      (scanResult w) /\
  files (exec (EnrichWithShodan env apiKey outDir) w)
  = written env (filepath_Join outDir "enrichment.json") (JsonEnrichment (map snd hits))
      (files w).
Proof.
  cbv zeta. unfold EnrichWithShodan. cbv zeta. do 4 (rewrite exec_bind; cbv beta).
  rewrite scanResult_AppendLog. rewrite ?files_AppendLog.
  rewrite scanResult_write_file, files_write_file.
  match goal with
  | |- context [exec (foldM ?body ?ips ?acc) ?w0] =>
      destruct (shodan_loop env apiKey ips acc w0) as (Hs & He & Hf)
  end.
  rewrite Hs, He, Hf. clear Hs He Hf.
  rewrite eval_load.
  rewrite scanResult_load.
  rewrite files_load.
  rewrite scanResult_AppendLog.
  rewrite ?files_AppendLog.
  split; [| reflexivity].
  destruct (scanResult w) as [sd vulns ffuf urls log report running proxy].
  cbn [set get LogLines Subdomains]. unfold enrichment_ips.
  rewrite <- !app_assoc. reflexivity.
Qed.

(** X15: the summary is the final state.  What the scanning goroutine
    hands to [PersistResults] is [scanResult] as the run leaves it, with
    [Running] false, the final report and the completion line in the log;
    summary.json, if it can be written, is the last file of the run and
    holds exactly that state. *)
Theorem summary_is_final_state (env : Env) (target outDir : string) :
  files (run_scan env target outDir)
  = written env (filepath_Join outDir "summary.json")
      (JsonSummary (scanResult (run_scan env target outDir)))
      (files (exec (run_stages env target outDir) initial_world)).
Proof.
  rewrite run_scan_state. unfold run_scan, scan_goroutine. rewrite exec_bind.
  generalize (exec (run_stages env target outDir) initial_world). intros w.
  unfold finalize, PersistResults. do 7 (rewrite exec_bind; cbv beta).
  rewrite exec_ret. rewrite files_write_file. reflexivity.
Qed.

(** ** The mutex and the shared state along a run *)

Section Walks.

Variable P : bool -> ScanResult -> Event -> ScanResult -> Prop.

Lemma walks_app (h : bool) (s : ScanResult) (a b : list (Event * ScanResult)) :
  walks P h s (a ++ b) <-> walks P h s a /\ walks P (held_after h a) (state_after s a) b.
Proof.
  revert h s. induction a as [|[e s'] a IH]; intros h s; cbn [app walks].
  - unfold held_after, state_after. cbn [fold_left]. tauto.
  - rewrite IH. unfold held_after, state_after. cbn [fold_left fst snd]. tauto.
Qed.

Lemma follows_ret {A} (h : bool) (a : A) : follows P h h (ret a).
Proof. intros w. exists []. rewrite app_nil_r. now repeat split. Qed.

Lemma follows_bind {A B} (h h1 h2 : bool) (m : M A) (k : A -> M B) :
  follows P h h1 m -> (forall a, follows P h1 h2 (k a)) -> follows P h h2 (bind m k).
Proof.
  intros Hm Hk w. rewrite exec_bind.
  destruct (Hm w) as (d1 & Ht1 & Hw1 & Hh1 & Hs1).
  destruct (Hk (eval m w) (exec m w)) as (d2 & Ht2 & Hw2 & Hh2 & Hs2).
  exists (d1 ++ d2). rewrite Ht2, Ht1, <- app_assoc. split; [reflexivity|].
  rewrite walks_app, Hh1, Hs1. split; [now split|].
  unfold held_after, state_after in *. rewrite !fold_left_app, Hh1, Hs1. now split.
Qed.

Lemma follows_Lock (h : bool) :
  (forall s, P h s ELock s) -> follows P h true Lock.
Proof.
  intros H w. exists [(ELock, scanResult w)]. repeat split. apply H.
Qed.

Lemma follows_Unlock (h : bool) :
  (forall s, P h s EUnlock s) -> follows P h false Unlock.
Proof.
  intros H w. exists [(EUnlock, scanResult w)]. repeat split. apply H.
Qed.

Lemma follows_load {A} (h : bool) (f : Field A) :
  (forall s, P h s (ERead (field_name f)) s) -> follows P h h (load f).
Proof.
  intros H w. exists [(ERead (field_name f), scanResult w)]. repeat split. apply H.
Qed.

Lemma follows_store {A} (h : bool) (f : Field A) (v : A) :
  (forall s, P h s (EWrite (field_name f)) (set f v s)) -> follows P h h (store f v).
Proof.
  intros H w. exists [(EWrite (field_name f), set f v (scanResult w))].
  repeat split. apply H.
Qed.

Lemma follows_modify {A} (h : bool) (f : Field A) (g : A -> A) :
  (forall s, P h s (ERead (field_name f)) s) ->
  (forall s, P h s (EWrite (field_name f)) (set f (g (get f s)) s)) ->
  follows P h h (modify f g).
Proof.
  intros Hr Hw w.
  exists [(ERead (field_name f), scanResult w);
          (EWrite (field_name f), set f (g (get f (scanResult w))) (scanResult w))].
  split; [| split; [| split]].
  - unfold modify. rewrite exec_bind. cbn [exec eval load store emit snd fst trace scanResult].
    now rewrite <- app_assoc.
  - cbn [walks held_next]. auto.
  - reflexivity.
  - reflexivity.
Qed.

Lemma follows_RunCommand (env : Env) (h : bool) (name : string) (args : list string) :
  (forall s, P h s (EExec name args) s) -> follows P h h (RunCommand env name args).
Proof.
  intros H w. exists [(EExec name args, scanResult w)]. repeat split. apply H.
Qed.

Lemma follows_write_file (env : Env) (h : bool) (path : string) (c : FileContent) :
  follows P h h (write_file env path c).
Proof.
  intros w. exists []. rewrite app_nil_r. unfold exec, write_file.
  destruct (write_err env path); now repeat split.
Qed.

Lemma follows_snapshot (h : bool) :
  follows P h h (fun w : World => (scanResult w, w)).
Proof. intros w. exists []. rewrite app_nil_r. now repeat split. Qed.

Lemma follows_forM_ {A} (h : bool) (l : list A) (body : A -> M unit) :
  (forall x, follows P h h (body x)) -> follows P h h (forM_ l body).
Proof.
  intros H. induction l as [|x l IH]; cbn [forM_].
  - apply follows_ret.
  - eapply follows_bind; [apply H | intros _; apply IH].
Qed.

Lemma follows_foldM {A B} (h : bool) (body : B -> A -> M B) (l : list A) (acc : B) :
  (forall acc x, follows P h h (body acc x)) -> follows P h h (foldM body l acc).
Proof.
  intros H. revert acc. induction l as [|x l IH]; intros acc; cbn [foldM].
  - apply follows_ret.
  - eapply follows_bind; [apply H | intros acc'; apply IH].
Qed.

End Walks.

Ltac head_of t :=
  lazymatch t with
  | ?f _ => head_of f
  | _ => t
  end.

(** Taking a computation apart along its text. *)
Ltac follows_step side :=
  cbv beta zeta;
  lazymatch goal with
  | |- follows _ _ _ (bind _ _) => eapply follows_bind; [| intros ?]
  | |- follows _ _ _ (ret _) => apply follows_ret
  | |- follows _ _ _ Lock => apply follows_Lock; intros ?; side
  | |- follows _ _ _ Unlock => apply follows_Unlock; intros ?; side
  | |- follows _ _ _ (load _) => apply follows_load; intros ?; side
  | |- follows _ _ _ (store _ _) => apply follows_store; intros ?; side
  | |- follows _ _ _ (modify _ _) => apply follows_modify; intros ?; side
  | |- follows _ _ _ (RunCommand _ _ _) => apply follows_RunCommand; intros ?; side
  | |- follows _ _ _ (write_file _ _ _) => apply follows_write_file
  | |- follows _ _ _ (forM_ _ _) => apply follows_forM_; intros ?
  | |- follows _ _ _ (foldM _ _ _) => apply follows_foldM; intros ? ?
  | |- follows _ _ _ (fun w : World => (scanResult w, w)) => apply follows_snapshot
  | |- follows _ _ _ (match ?x with _ => _ end) => destruct x
  | |- follows _ _ _ ?m => let f := head_of m in unfold f
  end.

Ltac follows_tac side := repeat follows_step side.

Ltac policy_side := reflexivity.

Ltac adds_side :=
  idtac;
  match goal with
  | s : ScanResult |- _ =>
      destruct s as [sd vulns ffuf urls log report running proxy];
      unfold only_adds; cbn [set get Subdomains VulnURLs LogLines ProxyEnabled];
      repeat split; first [reflexivity | apply prefix_app_r; reflexivity]
  end.

Section RunWalks.

Variable env : Env.
Variables target outDir : string.

Lemma scan_goroutine_policy :
  follows keeps_policy false false (scan_goroutine env target outDir).
Proof. follows_tac policy_side. Qed.

Lemma run_stages_only_adds :
  follows only_adds false false (run_stages env target outDir).
Proof. follows_tac adds_side. Qed.

End RunWalks.

Lemma walks_lock_use (h : bool) (s : ScanResult) (t : list (Event * ScanResult)) :
  walks keeps_policy h s t -> lock_use h (map fst t) = Some (held_after h t).
Proof.
  revert h s. induction t as [|[e s'] t IH]; intros h s; cbn [walks map fst lock_use].
  - reflexivity.
  - unfold keeps_policy at 1. intros [-> Ht]. apply (IH _ _ Ht).
Qed.

Lemma follows_uses_lock_well {A} (m : M A) :
  follows keeps_policy false false m -> uses_lock_well m.
Proof.
  intros H w. destruct (H w) as (d & Ht & Hw & Hh & _). exists d. split; [exact Ht|].
  rewrite (walks_lock_use _ _ _ Hw). now rewrite Hh.
Qed.

(** X16: the scanning goroutine and the mutex.  From its first step to the
    end of [PersistResults] the goroutine never locks [scanMu] while it
    holds it and never unlocks it while it does not, starts no external
    command inside a critical section, writes the log, the running flag
    and the final report inside critical sections only, and ends with the
    mutex released, whatever the tools and the network do. *)
Theorem scan_goroutine_uses_lock_well (env : Env) (target outDir : string) :
  uses_lock_well (scan_goroutine env target outDir).
Proof. apply follows_uses_lock_well, scan_goroutine_policy. Qed.

(** X17: the TUI and the mutex.  The key handler, for every key, and one
    round of each of the two goroutines that redraw the panes keep to the
    same policy: no second [Lock] while the mutex is held, no [Unlock] of
    a free mutex, the proxy flag and the log written inside critical
    sections only, and the mutex released at the end. *)
Theorem TUI_uses_lock_well (v : TUI.Views) :
  (forall rune, uses_lock_well (TUI.handleKey rune v)) /\
  uses_lock_well (TUI.updateViews v) /\
  uses_lock_well (TUI.updateConsole v).
Proof.
  split; [intros rune | split]; apply follows_uses_lock_well.
  - unfold TUI.handleKey. follows_tac policy_side.
  - follows_tac policy_side.
  - follows_tac policy_side.
Qed.

(** X18: a run only adds.  At every step of the scanning goroutine, from
    the initial state to the end, [Subdomains], [VulnURLs] and [LogLines]
    are what they were before the step or that with new entries at the
    end, and the proxy flag, which belongs to the key handler, is left
    alone. *)
Theorem run_only_adds (env : Env) (target outDir : string) :
  walks only_adds false initial_state (trace (run_scan env target outDir)).
Proof.
  assert (H : follows only_adds false false (scan_goroutine env target outDir)).
  { unfold scan_goroutine. eapply follows_bind; [apply run_stages_only_adds | intros _].
    follows_tac adds_side. }
  destruct (H initial_world) as (d & Ht & Hw & _).
  unfold run_scan. rewrite Ht. exact Hw.
Qed.

(** X19: the TUI does not touch the findings.  Whatever key is pressed,
    the key handler leaves the subdomains, the vulnerabilities, the ffuf
    entries, the URLs, the final report and the running flag as they
    are; the two goroutines that redraw the panes change nothing in the
    shared state at all. *)
Theorem TUI_keeps_findings (v : TUI.Views) (w : World) :
  (forall rune, same_findings (scanResult w) (scanResult (exec (TUI.handleKey rune v) w))) /\
  scanResult (exec (TUI.updateViews v) w) = scanResult w /\
  scanResult (exec (TUI.updateConsole v) w) = scanResult w.
Proof.
  split; [intros rune | split].
  - unfold TUI.handleKey.
    repeat match goal with
           | |- context [if ?b then _ else _] => destruct b
           end;
      now repeat split.
  - unfold TUI.updateViews. rewrite exec_bind. cbv beta.
    destruct (negb _); reflexivity.
  - reflexivity.
Qed.

(** ** The fuzzing stage of the [scanners] package *)

Section ScannersFuzzing.

Variable utils_RunCommand : string -> list string -> string * option string.
Variable ioutil_ReadFile : string -> string * option string.
Variable json_Unmarshal : string -> option FfufResult.

Lemma parse_entries_fold (lines : list string) (acc : list FfufResult) :
  fold_left (fun ffufResults line =>
               match json_Unmarshal line with
               | Some entry => ffufResults ++ [entry]
               | None => ffufResults
               end) lines acc
  = acc ++ omap json_Unmarshal lines.
Proof.
  revert acc. induction lines as [|l lines IH]; intros acc.
  - cbn [fold_left]. symmetry. apply app_nil_r.
  - cbn [fold_left]. rewrite IH. change (l :: lines) with ([l] ++ lines).
    rewrite omap_app. destruct (json_Unmarshal l) eqn:E; simpl; rewrite E.
    + now rewrite <- app_assoc.
    + reflexivity.
Qed.

End ScannersFuzzing.

(** X20: [RunFuzzing] of the [scanners] package.  When ffuf fails or its
    output file cannot be read, the result is left as it is and the error
    is reported.  Otherwise [FfufEntries] is replaced by the entries
    decoded from the lines of the file, in the order of the lines, a line
    that does not decode being skipped; no other field changes, and the
    number reported is the number of entries stored. *)
Theorem Scanners_RunFuzzing_result
    (utils_RunCommand : string -> list string -> string * option string)
    (ioutil_ReadFile : string -> string * option string)
    (json_Unmarshal : string -> option FfufResult)
    (target outDir : string) (result : ScanResult) :
  let out := Scanners.RunFuzzing utils_RunCommand ioutil_ReadFile json_Unmarshal
               target outDir result in
  let file := ioutil_ReadFile (filepath_Join outDir "ffuf_results.json") in
  match snd (utils_RunCommand "ffuf" (ffuf_args target outDir)), snd file with
  | Some e, _ =>
      out = (result, ["[*] Running ffuf fuzzing..."; "[!] ffuf error: " +:+ e])
  | None, Some e =>
      out = (result, ["[*] Running ffuf fuzzing...";
                      "[!] Failed to read ffuf output: " +:+ e])
  | None, None =>
      let entries := omap json_Unmarshal (Bufio.ScanLines (fst file)) in
      out = (set FFfufEntries entries result,
             ["[*] Running ffuf fuzzing...";
              "[*] ffuf fuzzing completed, found "
                +:+ fmt_int (Z.of_nat (length entries)) +:+ " entries"])
  end.
Proof.
  cbv zeta. unfold Scanners.RunFuzzing, ffuf_args. cbv zeta.
  destruct (snd (utils_RunCommand _ _)); [reflexivity |].
  destruct (snd (ioutil_ReadFile _)); [reflexivity |].
  unfold Scanners.parse_entries. rewrite parse_entries_fold. reflexivity.
Qed.
